(** * PriceStore: the per-asset price cache of condorgame/prices.py

    A shallow embedding of [PriceStore] and the properties of its
    insert, pruning, resampling and nearest-neighbour operations.

    Timestamps are Python ints ([Z]); prices are floats that the store
    only moves around and never computes with, so the development is
    parametric in the type [float] of prices.  The store keeps, per
    asset, a dict [{"ts": [...], "price": [...]}] of two parallel lists;
    that layout is kept here.  Python exceptions are explicit outcomes,
    and every method is a function from the store to an outcome and the
    store it leaves behind, so that what a method mutates before it raises
    stays visible. *)

From Stdlib Require Import ZArith QArith Lia.
From stdpp Require Import gmap strings list.

Local Open Scope Z_scope.

(** ** Outcomes and the state-and-exception monad *)

(** The exceptions the modelled code can raise.  [DateRangeError] stands
    for whatever [datetime.fromtimestamp], [timedelta] or their difference
    raise when a value leaves the years 1..9999 (ValueError, OverflowError
    or OSError, depending on the place). *)
Inductive exn : Type :=
  | IndexError
  | DateRangeError.

Inductive outcome (A : Type) : Type :=
  | Ok (a : A)
  | Raise (e : exn).
Arguments Ok {A} a.
Arguments Raise {A} e.

(** A computation over a mutable state [S]: the outcome and the state
    left behind (also when it raises). *)
Definition St (S A : Type) : Type := S → outcome A * S.

Definition ret {S A} (a : A) : St S A := λ s, (Ok a, s).

Definition bind {S A B} (m : St S A) (k : A → St S B) : St S B :=
  λ s, match m s with
       | (Ok a, s') => k a s'
       | (Raise e, s') => (Raise e, s')
       end.

Definition lift {S A} (o : outcome A) : St S A := λ s, (o, s).
Definition get {S} : St S S := λ s, (Ok s, s).
Definition put {S} (s' : S) : St S unit := λ _, (Ok tt, s').

(** stdpp's monad notations: [x ← m; k] and [m;; k]. *)
#[global] Instance St_ret {S} : MRet (St S) := λ A a, ret a.
#[global] Instance St_bind {S} : MBind (St S) := λ A B k m, bind m k.

(** ** Python list indexing *)

(** [l[i]] for a non-negative index. *)
Definition getitem {A} (l : list A) (i : nat) : outcome A :=
  match l !! i with
  | Some x => Ok x
  | None => Raise IndexError
  end.

(** [l[-1]]. *)
Definition getlast {A} (l : list A) : outcome A :=
  match last l with
  | Some x => Ok x
  | None => Raise IndexError
  end.

(** ** [datetime] arithmetic on epoch seconds *)

Module Datetime.

(** 0001-01-01T00:00:00Z and 9999-12-31T23:59:59Z, the bounds of
    [datetime] (MINYEAR = 1, MAXYEAR = 9999). *)
Definition MIN_TS : Z := -62135596800.
Definition MAX_TS : Z := 253402300799.
Definition SECONDS_PER_DAY : Z := 86400.
(** [timedelta] accepts at most this many days, in absolute value. *)
Definition MAX_DELTA_DAYS : Z := 999999999.

Definition representable (t : Z) : bool :=
  bool_decide (MIN_TS ≤ t) && bool_decide (t ≤ MAX_TS).

(** [int((datetime.fromtimestamp(t, tz=timezone.utc)
          - timedelta(days=n)).timestamp())]
    for ints [t] and [n]: the three steps each check their range, and
    the result is exact (the float of [timestamp()] holds an integer
    well below 2^53). *)
Definition days_before (t n : Z) : outcome Z :=
  if negb (representable t) then Raise DateRangeError
  else if negb (bool_decide (Z.abs n ≤ MAX_DELTA_DAYS)) then Raise DateRangeError
  else if negb (representable (t - n * SECONDS_PER_DAY)) then Raise DateRangeError
  else Ok (t - n * SECONDS_PER_DAY).

End Datetime.

(** ** [bisect.bisect_left] *)

(** The loop of [bisect_left(a, x)]:
    [while lo < hi: mid = (lo + hi) // 2;
       if a[mid] < x: lo = mid + 1 else: hi = mid].
    [fuel] bounds the number of iterations; [hi - lo] of them are enough
    (lemma [bisect_loop_fuel]).  [mid < hi ≤ len(a)], so [a[mid]] is
    always in range. *)
Fixpoint bisect_loop (fuel : nat) (a : list Z) (x : Z) (lo hi : nat) : nat :=
  match fuel with
  | O => lo
  | S fuel' =>
      if bool_decide (lo < hi)%nat then
        let mid := ((lo + hi) / 2)%nat in
        match a !! mid with
        | Some v =>
            if bool_decide (v < x) then bisect_loop fuel' a x (mid + 1)%nat hi
            else bisect_loop fuel' a x lo mid
        | None => lo
        end
      else lo
  end.

Definition bisect_left (a : list Z) (x : Z) : nat :=
  bisect_loop (length a) a x 0%nat (length a).

(** ** Sorted lists *)

(** Each element of [l] is related to the next by [R]. *)
Fixpoint chain (R : relation Z) `{!RelDecision R} (l : list Z) : bool :=
  match l with
  | [] => true
  | x :: l' =>
      match l' with
      | [] => true
      | y :: _ => bool_decide (R x y) && chain R l'
      end
  end.

(** Sorted ascending, ties allowed: what [bisect_left] expects. *)
Definition ascending (l : list Z) : bool := chain Z.le l.

(** Strictly increasing: invariants I1 and I2 of a price series. *)
Definition strictly_increasing (l : list Z) : bool := chain Z.lt l.

(** ** The store *)

Definition Asset : Type := string.

(** [PriceEntry = tuple[int, float]], for a type [float] of prices. *)
Definition PriceEntry (float : Type) : Type := Z * float.

(** The dict [{"ts": [...], "price": [...]}] held for one asset. *)
Record series (float : Type) : Type := Series {
  ts : list Z;
  price : list float;
}.
Arguments Series {float} ts price.
Arguments ts {float} _.
Arguments price {float} _.

(** The object: [self.data] (a defaultdict of series) and
    [self.window_days]. *)
Record PriceStore (float : Type) : Type := Store {
  data : gmap Asset (series float);
  window_days : Z;
}.
Arguments Store {float} data window_days.
Arguments data {float} _.
Arguments window_days {float} _.

Section PriceStore.

Context {float : Type}.

Local Abbreviation series := (series float).
Local Abbreviation PriceStore := (PriceStore float).
Local Abbreviation PriceEntry := (PriceEntry float).

(** The default factory of the defaultdict:
    [lambda: {"ts": [], "price": []}]. *)
Definition new_series : series := Series [] [].

(** [PriceStore(window_days)]; the default is 30. *)
Definition init (window_days : Z) : PriceStore := Store ∅ window_days.
Definition default_window_days : Z := 30.

(** *** Access to [self.data] *)

(** [d = self.data[symbol]] followed by code that mutates [d] in place.
    Indexing a defaultdict inserts the default for a missing key; [d] is
    the very dict the store holds, so whatever [body] does to it, also
    before raising, is what the store holds afterwards. *)
Definition with_item {A} (symbol : Asset) (body : St series A)
  : St PriceStore A :=
  λ s,
    let d := default new_series (data s !! symbol) in
    let '(r, d') := body d in
    (r, Store (<[symbol := d']> (data s)) (window_days s)).

(** [self.data.get(asset)]: no insertion, [None] for a missing key. *)
Definition data_get (asset : Asset) : St PriceStore (option series) :=
  λ s, (Ok (data s !! asset), s).

(** *** In-place updates of a series *)

(** [d["ts"].extend(ts_new); d["price"].extend(price_new)] *)
Definition extend (ts_new : list Z) (price_new : list float)
  : St series unit :=
  λ d, (Ok tt, Series (ts d ++ ts_new) (price d ++ price_new)).

(** [d["ts"].append(t); d["price"].append(p)] *)
Definition append (t : Z) (p : float) : St series unit :=
  λ d, (Ok tt, Series (ts d ++ [t]) (price d ++ [p])).

(** [d["price"][-1] = p] *)
Definition set_last_price (p : float) : St series unit :=
  λ d,
    match price d with
    | [] => (Raise IndexError, d)
    | _ => (Ok tt, Series (ts d) (<[(length (price d) - 1)%nat := p]> (price d)))
    end.

(** *** [add_prices] *)

(** The loop of the merge path, over [zip(ts_new, price_new)]. *)
Fixpoint merge_loop (pairs : list (Z * float)) (last_ts : option Z)
  : St series unit :=
  match pairs with
  | [] => mret tt
  | (t, p) :: rest =>
      match last_ts with
      | None => append t p;; merge_loop rest (Some t)
      | Some l =>
          if bool_decide (l < t) then append t p;; merge_loop rest (Some t)
          else if bool_decide (t = l) then set_last_price p;; merge_loop rest last_ts
          else merge_loop rest last_ts
      end
  end.

(** The horizon of the pruning step, [timedelta(days=5)]. *)
Definition PRUNE_DAYS : Z := 5.

(** The range of oldest timestamps for which the date arithmetic of the
    pruning step is defined: 0001-01-06 to 9999-12-31 (UTC). *)
Definition prunable (t0 : Z) : Prop :=
  Datetime.MIN_TS + 5 * 86400 ≤ t0 ≤ Datetime.MAX_TS.

(** "Drop old points": the last block of [add_prices]. *)
Definition drop_old : St series unit :=
  d ← get;
  if bool_decide (0 < length (ts d))%nat then
    t0 ← lift (getitem (ts d) 0);
    cutoff ← lift (Datetime.days_before t0 PRUNE_DAYS);
    let i := bisect_left (ts d) cutoff in
    if bool_decide (0 < i)%nat then
      put (Series (drop i (ts d)) (drop i (price d)))
    else mret tt
  else mret tt.

(** The part of [add_prices] that works on [d = self.data[symbol]],
    for a non-empty batch. *)
Definition add_prices_to_series (entries : list PriceEntry) : St series unit :=
  let ts_new := entries.*1 in
  let price_new := entries.*2 in
  d ← get;
  (* if not d["ts"] or ts_new[0] > d["ts"][-1]: *)
  fast ← match ts d with
         | [] => mret true
         | _ :: _ =>
             t0 ← lift (getitem ts_new 0);
             l ← lift (getlast (ts d));
             mret (bool_decide (l < t0))
         end;
  (if fast : bool then extend ts_new price_new
   else
     (* last_ts = d["ts"][-1] if d["ts"] else None *)
     merge_loop (zip ts_new price_new) (last (ts d)));;
  drop_old.

Definition add_prices (symbol : Asset) (entries : list PriceEntry)
  : St PriceStore unit :=
  match entries with
  | [] => mret tt
  | _ :: _ => with_item symbol (add_prices_to_series entries)
  end.

(** [add_price(symbol, price, timestamp)] *)
Definition add_price (symbol : Asset) (p : float) (timestamp : Z)
  : St PriceStore unit :=
  add_prices symbol [(timestamp, p)].

(** [add_bulk(data)], over the items of the dict in iteration order. *)
Fixpoint add_bulk (items : list (Asset * list PriceEntry))
  : St PriceStore unit :=
  match items with
  | [] => mret tt
  | (symbol, entries) :: rest => add_prices symbol entries;; add_bulk rest
  end.

(** *** [get_prices] *)

(** The start index: [bisect_left(ts, cutoff)] with the cutoff [days]
    days before the last timestamp [if days:], that is when [days] is
    neither [None] nor 0; index 0 otherwise. *)
Definition start_index (ts : list Z) (days : option Z) : outcome nat :=
  match days with
  | Some n =>
      if bool_decide (n ≠ 0) then
        match getlast ts with
        | Ok tl =>
            match Datetime.days_before tl n with
            | Ok cutoff => Ok (bisect_left ts cutoff)
            | Raise e => Raise e
            end
        | Raise e => Raise e
        end
      else Ok 0%nat
  | None => Ok 0%nat
  end.

(** The loop [for i in range(start_idx + 1, n)], over the list of those
    indices: an entry at or after [target_next] is emitted and moves
    [target_next] to [resolution] seconds after it. *)
Fixpoint resample_loop (ts : list Z) (prices : list float) (resolution : Z)
    (indices : list nat) (target_next : Z) (result : list PriceEntry)
  : outcome (list PriceEntry) :=
  match indices with
  | [] => Ok result
  | i :: rest =>
      match getitem ts i with
      | Ok t =>
          if bool_decide (target_next ≤ t) then
            match getitem prices i with
            | Ok p => resample_loop ts prices resolution rest (t + resolution)
                        (result ++ [(t, p)])
            | Raise e => Raise e
            end
          else resample_loop ts prices resolution rest target_next result
      | Raise e => Raise e
      end
  end.

(** The body of [get_prices] once the series is known to have data. *)
Definition resample (ts : list Z) (prices : list float) (days : option Z)
    (resolution : Z) : outcome (list PriceEntry) :=
  match start_index ts days with
  | Ok start_idx =>
      let n := length ts in
      if bool_decide (n ≤ start_idx)%nat then Ok []
      else
        match getitem ts start_idx with
        | Ok last_t =>
            match getitem prices start_idx with
            | Ok p =>
                resample_loop ts prices resolution
                  (seq (start_idx + 1) (n - (start_idx + 1)))
                  (last_t + resolution) [(last_t, p)]
            | Raise e => Raise e
            end
        | Raise e => Raise e
        end
  | Raise e => Raise e
  end.

(** Consecutive entries of a result are at least [resolution] seconds
    apart. *)
Definition spaced (resolution : Z) (l : list PriceEntry) : Prop :=
  ∀ i e1 e2, l !! i = Some e1 → l !! S i = Some e2 → resolution ≤ e2.1 - e1.1.

Definition default_resolution : Z := 60.

(** [get_prices(asset, days, resolution)]; [days = None] is the default. *)
Definition get_prices (asset : Asset) (days : option Z) (resolution : Z)
  : St PriceStore (list PriceEntry) :=
  d ← data_get asset;
  match d with
  | None => mret []
  | Some d =>
      match ts d with
      | [] => mret []
      | _ :: _ => lift (resample (ts d) (price d) days resolution)
      end
  end.

(** *** [get_last_price] *)

Definition get_last_price (asset : Asset) : St PriceStore (option PriceEntry) :=
  d ← data_get asset;
  match d with
  | None => mret None
  | Some d =>
      match ts d with
      | [] => mret None
      | _ :: _ =>
          t ← lift (getlast (ts d));
          p ← lift (getlast (price d));
          mret (Some (t, p))
      end
  end.

(** *** [get_closest_price] *)

(** The body of [get_closest_price] once the series is known to have
    data. *)
Definition closest (ts : list Z) (prices : list float) (time : Z)
  : outcome PriceEntry :=
  let pos := bisect_left ts time in
  if bool_decide (pos = 0%nat) then
    match getitem ts 0, getitem prices 0 with
    | Ok t, Ok p => Ok (t, p)
    | Raise e, _ | _, Raise e => Raise e
    end
  else if bool_decide (pos = length ts) then
    match getlast ts, getlast prices with
    | Ok t, Ok p => Ok (t, p)
    | Raise e, _ | _, Raise e => Raise e
    end
  else
    let before := (pos - 1)%nat in
    let after := pos in
    match getitem ts before, getitem ts after with
    | Ok tb, Ok ta =>
        if bool_decide (time - tb ≤ ta - time) then
          match getitem prices before with
          | Ok p => Ok (tb, p)
          | Raise e => Raise e
          end
        else
          match getitem prices after with
          | Ok p => Ok (ta, p)
          | Raise e => Raise e
          end
    | Raise e, _ | _, Raise e => Raise e
    end.

Definition get_closest_price (asset : Asset) (time : Z)
  : St PriceStore (option PriceEntry) :=
  d ← data_get asset;
  match d with
  | None => mret None
  | Some d =>
      match ts d with
      | [] => mret None
      | _ :: _ =>
          e ← lift (closest (ts d) (price d) time);
          mret (Some e)
      end
  end.

(** *** Invariants of a stored series *)

(** The two lists of a series run in parallel. *)
Definition series_wf (d : series) : Prop := length (ts d) = length (price d).

(** Invariants I1 and I2 on top of that: timestamps strictly increasing. *)
Definition series_ok (d : series) : Prop :=
  series_wf d ∧ strictly_increasing (ts d) = true.

Definition store_wf (s : PriceStore) : Prop :=
  ∀ a d, data s !! a = Some d → series_wf d.

Definition store_ok (s : PriceStore) : Prop :=
  ∀ a d, data s !! a = Some d → series_ok d.

(** A series as the store keeps it while every batch is sorted: parallel
    lists, timestamps ascending, and an oldest timestamp the pruning step
    accepts. *)
Definition series_sorted (d : series) : Prop :=
  series_wf d ∧ ascending (ts d) = true ∧
  ∀ t0, head (ts d) = Some t0 → prunable t0.

(** The stores built from an empty one by calls of [add_prices] that
    return, each with a batch sorted ascending (the caller's side of the
    contract). *)
Inductive reachable : PriceStore → Prop :=
  | reachable_init w : reachable (init w)
  | reachable_add_prices s symbol entries s' :
      reachable s →
      ascending entries.*1 = true →
      add_prices symbol entries s = (Ok (), s') →
      reachable s'.

(** The stores built from an empty one by calls of [add_prices], each with
    a batch sorted ascending, whether the call returns or raises: a call
    that raises in its pruning step has stored its batch by then, and the
    caller who catches the exception goes on with that store. *)
Inductive built : PriceStore → Prop :=
  | built_init w : built (init w)
  | built_add_prices s symbol entries :
      built s →
      ascending entries.*1 = true →
      built (add_prices symbol entries s).2.

(** *** The two paths of [add_prices] *)

(** The test [not d["ts"] or ts_new[0] > d["ts"][-1]] of [add_prices], for
    a non-empty batch. *)
Definition fast_path (d : series) (entries : list PriceEntry) : bool :=
  match last (ts d), head entries.*1 with
  | None, _ => true
  | Some l, Some t0 => bool_decide (l < t0)
  | Some _, None => false
  end.

(** The entries of a batch that are newer than timestamp [l], and the
    price the batch gives for [l] itself, if any. *)
Definition newer_than (l : Z) (entries : list PriceEntry) : list PriceEntry :=
  filter (λ e, l < e.1) entries.

Definition price_at (l : Z) (entries : list PriceEntry) : option float :=
  snd <$> head (filter (λ e, e.1 = l) entries).

End PriceStore.


(** ** Predictive distributions (condorgame/utils/distributions.py) *)

(** The Python values a distribution is made of: a distribution is a dict
    with string keys, as read from JSON.  Tuples behave as lists here. *)
#[warnings="-register-all"] Inductive pyval (float : Type) : Type :=
  | PNone
  | PInt (z : Z)
  | PFloat (f : float)
  | PStr (s : string)
  | PList (l : list (pyval float))
  | PDict (items : list (string * pyval float)).
Arguments PNone {float}.
Arguments PInt {float} z.
Arguments PFloat {float} f.
Arguments PStr {float} s.
Arguments PList {float} l.
Arguments PDict {float} items.

(** What the functions on distributions raise: [ValueError] carries the
    number of components found. *)
Inductive dist_exn : Type :=
  | AttributeError
  | TypeError
  | ValueError (n_components : Z).

Inductive answer (A : Type) : Type :=
  | Returns (a : A)
  | Raises (e : dist_exn).
Arguments Returns {A} a.
Arguments Raises {A} e.

Section Distributions.

Context {float : Type}.

Local Abbreviation pyval := (pyval float).

(** [d.get(key)] on the items of a dict: [None] stands for a missing key. *)
Fixpoint dict_get (key : string) (items : list (string * pyval)) : option pyval :=
  match items with
  | [] => None
  | (k, v) :: rest => if bool_decide (k = key) then Some v else dict_get key rest
  end.

(** [dist.get("type") != "mixture"], negated. *)
Definition is_mixture (items : list (string * pyval)) : bool :=
  match dict_get "type" items with
  | Some (PStr s) => bool_decide (s = "mixture"%string)
  | _ => false
  end.

(** The characters of a string, as [for c in s] yields them. *)
Fixpoint chars (s : string) : list pyval :=
  match s with
  | EmptyString => []
  | String c rest => PStr (String c EmptyString) :: chars rest
  end.

(** [for comp in components]: what the loop runs over.  A list yields its
    elements, a dict its keys, a string its characters; the other values
    are not iterable. *)
Definition iterate (v : pyval) : answer (list pyval) :=
  match v with
  | PList l => Returns l
  | PDict items => Returns (PStr <$> items.*1)
  | PStr s => Returns (chars s)
  | PNone | PInt _ | PFloat _ => Raises TypeError
  end.

(** The loop of [count_distribution_components] over the components, with
    [count] the recursive call; [None] when a call ran out of fuel. *)
Fixpoint count_loop (count : pyval → option (answer Z))
    (components : list pyval) (total : Z) : option (answer Z) :=
  match components with
  | [] => Some (Returns total)
  | comp :: rest =>
      match comp with
      | PDict citems =>
          (* density = comp.get("density", {}) *)
          let density := default (PDict []) (dict_get "density" citems) in
          match count density with
          | Some (Returns n) => count_loop count rest (total + n)
          | Some (Raises e) => Some (Raises e)
          | None => None
          end
      | _ => Some (Raises AttributeError)
      end
  end.

(** [count_distribution_components], with [fuel] bounding the depth of the
    recursion; [None] when it is used up. *)
Fixpoint count_fuel (fuel : nat) (dist : pyval) : option (answer Z) :=
  match fuel with
  | O => None
  | S fuel' =>
      match dist with
      | PDict items =>
          if is_mixture items then
            (* components = dist.get("components", []) *)
            match iterate (default (PList []) (dict_get "components" items)) with
            | Returns components => count_loop (count_fuel fuel') components 0
            | Raises e => Some (Raises e)
            end
          else Some (Returns 1)
      | _ => Some (Raises AttributeError)
      end
  end.

(** The nesting depth of a value bounds the depth of the recursion. *)
Fixpoint depth (v : pyval) : nat :=
  match v with
  | PList l => S (foldr (λ x n, Nat.max (depth x) n) 0%nat l)
  | PDict items => S (foldr (λ kv n, Nat.max (depth kv.2) n) 0%nat items)
  | _ => 0
  end.

(** [count_distribution_components(dist)]: the recursion gets the fuel the
    depth of [dist] calls for, which is enough (lemma [count_fuel_enough]).
    Python's own bound on the depth of recursion is left out. *)
Definition count_distribution_components (dist : pyval) : answer Z :=
  match count_fuel (S (depth dist)) dist with
  | Some r => r
  | None => Raises AttributeError
  end.

(** [validate_distribution(dist)], for a value [max_components] of
    [MAX_DISTRIBUTION_COMPONENTS]. *)
Definition validate_distribution (max_components : Z) (dist : pyval)
  : answer unit :=
  match count_distribution_components dist with
  | Returns n_components =>
      if bool_decide (max_components < n_components)
      then Raises (ValueError n_components)
      else Returns ()
  | Raises e => Raises e
  end.

(** A mixture whose components hold the given densities, each with a
    weight. *)
Definition component (density weight : pyval) : pyval :=
  PDict [("density"%string, density); ("weight"%string, weight)].

Definition mixture (components : list pyval) : pyval :=
  PDict [("type"%string, PStr "mixture"); ("components"%string, PList components)].

End Distributions.


(** *** Well-formed distributions *)

(** The distributions the docstring of [count_distribution_components]
    speaks of, as trees: a leaf is a dict that is not a mixture, a mixture
    holds components, each with a density and a weight. *)
Inductive dist_tree (float : Type) : Type :=
  | Leaf (items : list (string * pyval float))
  | Mixture (components : forest float)
with forest (float : Type) : Type :=
  | FNil
  | FCons (density : dist_tree float) (weight : pyval float) (rest : forest float).
Arguments Leaf {float} items.
Arguments Mixture {float} components.
Arguments FNil {float}.
Arguments FCons {float} density weight rest.

Scheme dist_tree_mut := Induction for dist_tree Sort Prop
  with forest_mut := Induction for forest Sort Prop.

Section DistTrees.

Context {float : Type}.

(** The dict a tree stands for. *)
Fixpoint encode (t : dist_tree float) : pyval float :=
  match t with
  | Leaf items => PDict items
  | Mixture components => mixture (encode_components components)
  end
with encode_components (components : forest float) : list (pyval float) :=
  match components with
  | FNil => []
  | FCons density weight rest =>
      component (encode density) weight :: encode_components rest
  end.

(** A leaf must not say it is a mixture. *)
Fixpoint well_formed (t : dist_tree float) : Prop :=
  match t with
  | Leaf items => is_mixture items = false
  | Mixture components => well_formed_components components
  end
with well_formed_components (components : forest float) : Prop :=
  match components with
  | FNil => True
  | FCons density _ rest => well_formed density ∧ well_formed_components rest
  end.

(** "A non-mixture distribution counts as 1 component; a mixture counts as
    the sum of its leaf components; nested mixtures are fully expanded." *)
Fixpoint leaves (t : dist_tree float) : Z :=
  match t with
  | Leaf _ => 1
  | Mixture components => leaves_components components
  end
with leaves_components (components : forest float) : Z :=
  match components with
  | FNil => 0
  | FCons density _ rest => leaves density + leaves_components rest
  end.

End DistTrees.

(** ** The benchmark tracker (condorgame/examples/benchmarktracker.py) *)

(** What [GaussianStepTracker.predict] can do besides returning: an
    exception of the store, or the [ZeroDivisionError] of
    [horizon // step]. *)
Inductive prediction (A : Type) : Type :=
  | Predicted (a : A)
  | StoreRaised (e : exn)
  | ZeroDivisionError.
Arguments Predicted {A} a.
Arguments StoreRaised {A} e.
Arguments ZeroDivisionError {A}.

Section Predict.

Context {float : Type}.

(** numpy on the past prices: [float(np.mean(np.diff(np.log(prices))))],
    [float(np.std(np.diff(np.log(prices))))] and the test [sigma <= 0] on
    floats.  They only feed the parameters of the forecast. *)
Context (log_return_mean log_return_std : list float → float).
Context (le_zero : float → bool).

(** The forecast for one step. *)
Definition gaussian_step (mu sigma : float) (step k : Z) : pyval float :=
  PDict
    [("step"%string, PInt (k * step));
     ("type"%string, PStr "mixture");
     ("components"%string,
       PList
         [PDict
            [("density"%string,
               PDict
                 [("type"%string, PStr "builtin");
                  ("name"%string, PStr "norm");
                  ("params"%string,
                    PDict [("loc"%string, PFloat mu);
                           ("scale"%string, PFloat sigma)])]);
             ("weight"%string, PInt 1)]])].

(** [range(1, num_segments + 1)] *)
Definition segments (num_segments : Z) : list Z :=
  (λ k, Z.of_nat k) <$> seq 1 (Z.to_nat num_segments).

(** [predict(asset, horizon, step)], with [self.prices] the tracker's
    [PriceStore] ([TrackerBase] keeps it; the call is
    [self.prices.get_prices(asset, days=5, resolution=step)]). *)
Definition predict (asset : Asset) (horizon step : Z) (s : PriceStore float)
  : prediction (list (pyval float)) * PriceStore float :=
  match get_prices asset (Some 5) step s with
  | (Raise e, s') => (StoreRaised e, s')
  | (Ok pairs, s') =>
      match pairs with
      | [] => (Predicted [], s')
      | _ :: _ =>
          let past_prices := pairs.*2 in
          if bool_decide (length past_prices < 3)%nat then (Predicted [], s')
          else
            let mu := log_return_mean past_prices in
            let sigma := log_return_std past_prices in
            if le_zero sigma then (Predicted [], s')
            else if bool_decide (step = 0) then (ZeroDivisionError, s')
            else
              let num_segments := horizon `div` step in
              (Predicted (gaussian_step mu sigma step <$> segments num_segments),
               s')
      end
  end.

End Predict.

(** ** Concrete stores *)

(** Prices are rationals in the concrete runs below. *)
Definition X : Asset := "X"%string.
Definition UNKNOWN : Asset := "UNKNOWN"%string.

(** The series of the end-to-end scenarios, and a store holding it for
    asset [X]. *)
Definition d_xyz : series Q := Series [1000; 1060; 1120] [100%Q; 101%Q; 102%Q].
Definition s_xyz : PriceStore Q := (add_prices X [(1000, 100%Q); (1060, 101%Q); (1120, 102%Q)] (init 30)).2.

(** A store reached through one batch that is not sorted. *)
Definition s_unsorted : PriceStore Q :=
  (add_prices X [(1000000, 1%Q); (0, 2%Q); (5000000, 3%Q); (0, 4%Q)] (init 30)).2.

Definition Y : Asset := "Y"%string.

(** A store whose asset [X] holds a timestamp in milliseconds. *)
Definition s_millis : PriceStore Q :=
  (add_prices X [(1700000000000, 1%Q)] (init 30)).2.

(** A distribution that is not a mixture, and a store with two entries. *)
Definition norm_leaf : pyval Q :=
  PDict [("type"%string, PStr "builtin"); ("name"%string, PStr "norm")].

(** A series that spans two days, and a store holding it for asset [X]. *)
Definition d_days : series Q :=
  Series [100000; 186400; 272800] [1%Q; 2%Q; 3%Q].
Definition s_days : PriceStore Q :=
  (add_prices X [(100000, 1%Q); (186400, 2%Q); (272800, 3%Q)] (init 30)).2.

Definition d_two : series Q := Series [1000; 1060] [100%Q; 101%Q].
Definition s_two : PriceStore Q :=
  (add_prices X [(1000, 100%Q); (1060, 101%Q)] (init 30)).2.

(** * Properties *)

(** ** Sorted lists *)

Section chain.

Context (R : relation Z) `{!RelDecision R} `{!Transitive R}.

Lemma chain_cons x y l :
  chain R (x :: y :: l) = true ↔ R x y ∧ chain R (y :: l) = true.
Proof.
  cbn [chain]. rewrite andb_true_iff, bool_decide_eq_true. done.
Qed.

(** A chain of a transitive relation relates any two of its elements, the
    earlier to the later. *)
Lemma chain_lookup l :
  chain R l = true ↔
  ∀ i j x y, (i < j)%nat → l !! i = Some x → l !! j = Some y → R x y.
Proof.
  induction l as [|a [|b l] IH].
  - split; [by intros _ [|?] ? ? ? ?|done].
  - split; [|done]. intros _ [|?] [|[|?]] ? ? ? ? ?; simplify_eq/=; lia.
  - rewrite chain_cons, IH. split.
    + intros [Hab Hl] [|i] [|j] x y Hij Hi Hj; simplify_eq/=; try lia.
      * destruct j as [|j]; simplify_eq/=; [done|].
        etrans; [exact Hab|]. eapply (Hl 0%nat (S j)); [lia|done..].
      * eapply (Hl i j); [lia|done..].
    + intros H. split.
      * by eapply (H 0%nat 1%nat); [lia|..].
      * intros i j x y Hij Hi Hj. eapply (H (S i) (S j)); [lia|done..].
Qed.

Lemma chain_app l1 l2 :
  chain R l1 = true → chain R l2 = true →
  (∀ x y, last l1 = Some x → head l2 = Some y → R x y) →
  chain R (l1 ++ l2) = true.
Proof.
  rewrite !chain_lookup. intros H1 H2 H12 i j x y Hij Hi Hj.
  destruct (decide (j < length l1)%nat).
  { rewrite lookup_app_l in Hi, Hj by lia. by eapply (H1 i j). }
  rewrite lookup_app_r in Hj by lia.
  destruct (decide (i < length l1)%nat).
  2:{ rewrite lookup_app_r in Hi by lia.
      eapply (H2 (i - length l1)%nat (j - length l1)%nat); [|done..]. lia. }
  rewrite lookup_app_l in Hi by lia.
  destruct (last l1) as [xl|] eqn:Hlast.
  2:{ apply last_None in Hlast. subst l1. cbn in *. lia. }
  destruct (head l2) as [yh|] eqn:Hhead.
  2:{ apply head_None in Hhead. by subst l2. }
  specialize (H12 _ _ eq_refl eq_refl).
  rewrite last_lookup in Hlast. rewrite head_lookup in Hhead.
  assert (R x yh) as Hxyh.
  { destruct (decide (i = Init.Nat.pred (length l1))) as [->|]; [by simplify_eq|].
    etrans; [|exact H12].
    eapply (H1 i (Init.Nat.pred (length l1))); [|done..]. lia. }
  destruct (decide (j - length l1 = 0)%nat) as [Hz|].
  - rewrite Hz in Hj. by simplify_eq.
  - etrans; [exact Hxyh|].
    eapply (H2 0%nat (j - length l1)%nat); [|done..]. lia.
Qed.

Lemma chain_drop l n : chain R l = true → chain R (drop n l) = true.
Proof.
  rewrite !chain_lookup. intros H i j x y Hij Hi Hj.
  rewrite lookup_drop in Hi, Hj.
  eapply (H (n + i)%nat (n + j)%nat); [|done..]. lia.
Qed.

End chain.

Lemma ascending_lookup l i j x y :
  ascending l = true → (i ≤ j)%nat →
  l !! i = Some x → l !! j = Some y → x ≤ y.
Proof.
  intros Hl Hij Hi Hj. destruct (decide (i = j)) as [->|].
  { simplify_eq. lia. }
  eapply (proj1 (chain_lookup Z.le l) Hl i j); [lia|done..].
Qed.

Lemma strictly_increasing_lookup l i j x y :
  strictly_increasing l = true → (i < j)%nat →
  l !! i = Some x → l !! j = Some y → x < y.
Proof. intros Hl. by apply (proj1 (chain_lookup Z.lt l) Hl). Qed.

Lemma strictly_increasing_ascending l :
  strictly_increasing l = true → ascending l = true.
Proof.
  unfold strictly_increasing, ascending.
  rewrite (chain_lookup Z.lt), (chain_lookup Z.le).
  intros H i j x y Hij Hi Hj.
  assert (x < y) by (by eapply (H i j)). lia.
Qed.

(** ** [bisect_left] *)

(** The loop needs no more than [hi - lo] iterations: more fuel does not
    change its result. *)
Lemma bisect_loop_fuel a x f1 f2 lo hi :
  (hi - lo ≤ f1)%nat → (hi - lo ≤ f2)%nat →
  bisect_loop f1 a x lo hi = bisect_loop f2 a x lo hi.
Proof.
  revert f2 lo hi. induction f1 as [|f1 IH]; intros f2 lo hi H1 H2.
  - destruct f2 as [|f2]; [done|]. cbn [bisect_loop].
    rewrite bool_decide_eq_false_2 by lia. done.
  - destruct f2 as [|f2]; cbn [bisect_loop].
    + rewrite bool_decide_eq_false_2 by lia. done.
    + case_bool_decide as Hlt; [|done].
      assert (lo ≤ (lo + hi) / 2 < hi)%nat as Hmid.
      { split; [apply Nat.div_le_lower_bound|apply Nat.Div0.div_lt_upper_bound]; lia. }
      destruct (a !! _) as [v|]; [|done].
      case_bool_decide; apply IH; lia.
Qed.

(** On a sorted list the loop keeps everything below [lo] smaller than
    [x] and everything from [hi] on at least [x], and ends where the two
    meet. *)
Lemma bisect_loop_spec a x fuel lo hi :
  ascending a = true →
  (lo ≤ hi ≤ length a)%nat → (hi - lo ≤ fuel)%nat →
  (∀ j v, (j < lo)%nat → a !! j = Some v → v < x) →
  (∀ j v, (hi ≤ j)%nat → a !! j = Some v → x ≤ v) →
  let r := bisect_loop fuel a x lo hi in
  (lo ≤ r ≤ hi)%nat ∧
  (∀ j v, (j < r)%nat → a !! j = Some v → v < x) ∧
  (∀ j v, (r ≤ j)%nat → a !! j = Some v → x ≤ v).
Proof.
  intros Hsorted. revert lo hi.
  induction fuel as [|fuel IH]; intros lo hi Hb Hf Hlo Hhi; cbn [bisect_loop].
  - assert (lo = hi) as -> by lia. eauto with lia.
  - case_bool_decide as Hlt.
    2:{ assert (lo = hi) as -> by lia. eauto with lia. }
    assert (lo ≤ (lo + hi) / 2 < hi)%nat as Hmid.
    { split; [apply Nat.div_le_lower_bound|apply Nat.Div0.div_lt_upper_bound]; lia. }
    set (mid := ((lo + hi) / 2)%nat) in *.
    destruct (lookup_lt_is_Some_2 a mid) as [v Hv]; [lia|].
    rewrite Hv. case_bool_decide as Hvx.
    + destruct (IH (mid + 1)%nat hi) as (Hr & Hl & Hh); [lia|lia| |done|].
      * intros j w Hj Hw.
        assert (w ≤ v) by (eapply (ascending_lookup a j mid); eauto with lia).
        lia.
      * split_and!; try done; lia.
    + destruct (IH lo mid) as (Hr & Hl & Hh); [lia|lia|done| |].
      * intros j w Hj Hw.
        assert (v ≤ w) by (eapply (ascending_lookup a mid j); eauto with lia).
        lia.
      * split_and!; try done; lia.
Qed.

(** On a sorted list [bisect_left a x] is the first index whose element
    is at least [x] (the length when there is none). *)
Lemma bisect_left_spec a x :
  ascending a = true →
  (bisect_left a x ≤ length a)%nat ∧
  (∀ j v, (j < bisect_left a x)%nat → a !! j = Some v → v < x) ∧
  (∀ j v, (bisect_left a x ≤ j)%nat → a !! j = Some v → x ≤ v).
Proof.
  intros Hsorted. unfold bisect_left.
  destruct (bisect_loop_spec a x (length a) 0 (length a)) as (Hr & Hl & Hh);
    try done; try lia.
  - intros j v Hj Hv. apply lookup_lt_Some in Hv. lia.
  - split_and!; try done; lia.
Qed.

(** When no element is smaller than [x] the search ends at index 0,
    sorted or not. *)
Lemma bisect_loop_all_ge a x fuel hi :
  (∀ v, v ∈ a → x ≤ v) → bisect_loop fuel a x 0 hi = 0%nat.
Proof.
  intros Hall. revert hi. induction fuel as [|fuel IH]; intros hi; [done|].
  cbn [bisect_loop]. case_bool_decide; [|done].
  destruct (a !! _) as [v|] eqn:Hv; [|done].
  apply list_elem_of_lookup_2, Hall in Hv.
  rewrite bool_decide_eq_false_2 by lia. apply IH.
Qed.

Lemma bisect_left_all_ge a x :
  (∀ v, v ∈ a → x ≤ v) → bisect_left a x = 0%nat.
Proof. apply bisect_loop_all_ge. Qed.

(** The fuel [bisect_left] gives its loop is enough: any larger amount
    yields the same index. *)
Lemma bisect_left_fuel a x fuel :
  (length a ≤ fuel)%nat → bisect_loop fuel a x 0 (length a) = bisect_left a x.
Proof. intros H. apply bisect_loop_fuel; lia. Qed.

(** ** The store operations *)

Ltac st_unfold :=
  unfold mbind, mret, St_bind, St_ret, bind, ret, lift, get, put in *.

Section Properties.

Context {float : Type}.
Implicit Types (s : PriceStore float) (d : series float).
Implicit Types (entries : list (PriceEntry float)) (p : float).

(** *** Reads *)

(** C10: [get_prices], [get_last_price] and [get_closest_price] leave the
    store exactly as it was, whatever they return or raise; they look the
    asset up with [self.data.get], which creates nothing, so an unknown
    asset is still unknown afterwards. *)
Theorem reads_leave_store_unchanged s (asset : Asset) days resolution time :
  (get_prices asset days resolution s).2 = s ∧
  (get_last_price asset s).2 = s ∧
  (get_closest_price asset time s).2 = s.
Proof.
  unfold get_prices, get_last_price, get_closest_price, data_get. st_unfold.
  destruct (data s !! asset) as [d|]; [|done].
  destruct (ts d) as [|t0 l]; [done|].
  split_and!.
  - done.
  - destruct (getlast (t0 :: l)); [|done]. by destruct (getlast (price d)).
  - by destruct (closest (t0 :: l) (price d) time).
Qed.

(** By contrast, indexing the defaultdict (as [add_prices] does) creates
    the series of an unknown asset. *)
Lemma with_item_creates s (symbol : Asset) :
  data s !! symbol = None →
  data (with_item symbol (mret ()) s).2 !! symbol = Some new_series.
Proof.
  intros H. unfold with_item. st_unfold. rewrite H. cbn.
  apply lookup_insert_eq.
Qed.

(** C8: for an asset without data (unknown to the store, or known with an
    empty series) [get_prices] returns the empty list and [get_last_price]
    and [get_closest_price] return [None]; none of them raises. *)
Theorem reads_without_data s (asset : Asset) days resolution time :
  (data s !! asset = None ∨ ∃ d, data s !! asset = Some d ∧ ts d = []) →
  get_prices asset days resolution s = (Ok [], s) ∧
  get_last_price asset s = (Ok None, s) ∧
  get_closest_price asset time s = (Ok None, s).
Proof.
  unfold get_prices, get_last_price, get_closest_price, data_get. st_unfold.
  intros [-> | (d & -> & ->)]; done.
Qed.

(** *** [add_prices]: the empty batch *)

(** C9: [add_prices] with an empty batch returns at once: the store is
    unchanged (no series is created for an unknown asset) and nothing is
    raised. *)
Theorem add_prices_empty s (symbol : Asset) :
  add_prices symbol [] s = (Ok (), s).
Proof. reflexivity. Qed.

(** *** Pruning *)

Lemma days_before_Ok t n c :
  Datetime.days_before t n = Ok c → c = t - n * Datetime.SECONDS_PER_DAY.
Proof.
  unfold Datetime.days_before. intros H.
  repeat (case_match; try done). by simplify_eq.
Qed.

Lemma ascending_head_le l t0 t :
  ascending l = true → l !! 0%nat = Some t0 → t ∈ l → t0 ≤ t.
Proof.
  intros Hl H0 Ht. apply list_elem_of_lookup in Ht as [j Hj].
  eapply (ascending_lookup l 0 j); eauto with lia.
Qed.

(** The cutoff of the pruning step lies below every timestamp of a sorted
    series, so the search for it ends at index 0. *)
Lemma prune_cutoff d t0 cutoff :
  ascending (ts d) = true →
  ts d !! 0%nat = Some t0 →
  Datetime.days_before t0 PRUNE_DAYS = Ok cutoff →
  cutoff = t0 - 5 * 86400 ∧
  (∀ t, t ∈ ts d → cutoff < t) ∧
  bisect_left (ts d) cutoff = 0%nat.
Proof.
  intros Hsorted H0 Hc. apply days_before_Ok in Hc.
  unfold PRUNE_DAYS, Datetime.SECONDS_PER_DAY in Hc.
  assert (∀ t, t ∈ ts d → cutoff < t) as Hall.
  { intros t Ht. pose proof (ascending_head_le _ _ _ Hsorted H0 Ht). lia. }
  split_and!; [lia|done|].
  apply bisect_left_all_ge. intros v Hv. specialize (Hall v Hv). lia.
Qed.

Lemma days_before_prunable t0 :
  prunable t0 → Datetime.days_before t0 PRUNE_DAYS = Ok (t0 - 5 * 86400).
Proof.
  unfold prunable, Datetime.days_before, Datetime.representable, PRUNE_DAYS,
    Datetime.MIN_TS, Datetime.MAX_TS, Datetime.MAX_DELTA_DAYS,
    Datetime.SECONDS_PER_DAY.
  intros H. rewrite !bool_decide_eq_true_2 by lia. done.
Qed.

(** On a sorted series the pruning step changes nothing, whether it
    returns or raises. *)
Lemma drop_old_ascending d :
  ascending (ts d) = true → (drop_old d).2 = d.
Proof.
  intros Hsorted. unfold drop_old, getitem. st_unfold.
  case_bool_decide as Hlen; [|done].
  destruct (ts d !! 0%nat) as [t0|] eqn:H0; [|done].
  destruct (Datetime.days_before t0 PRUNE_DAYS) as [cutoff|e] eqn:Hc; [|done].
  destruct (prune_cutoff _ _ _ Hsorted H0 Hc) as (_ & _ & ->).
  by rewrite bool_decide_eq_false_2 by lia.
Qed.

Lemma drop_old_ascending_Ok d t0 :
  ascending (ts d) = true → head (ts d) = Some t0 → prunable t0 →
  drop_old d = (Ok (), d).
Proof.
  intros Hsorted H0 Hr.
  pose proof (drop_old_ascending d Hsorted) as Hst. revert Hst.
  unfold drop_old, getitem. st_unfold.
  destruct (ts d) as [|t l] eqn:Hts; [done|]. simplify_eq/=.
  rewrite (days_before_prunable _ Hr).
  case_bool_decide; cbn; intros Heq; by f_equal.
Qed.

(** [window_days] is never read by [add_prices]. *)
Lemma add_prices_window_days (symbol : Asset) entries m w1 w2 :
  (add_prices symbol entries (Store m w1)).1
    = (add_prices symbol entries (Store m w2)).1 ∧
  data (add_prices symbol entries (Store m w1)).2
    = data (add_prices symbol entries (Store m w2)).2.
Proof.
  destruct entries as [|e entries]; [done|].
  cbn [add_prices]. unfold with_item. cbn [data window_days].
  by destruct (add_prices_to_series _ _) as [r d'].
Qed.

(** C2: the pruning step of [add_prices] removes nothing from a series
    sorted ascending: its cutoff, the oldest timestamp minus 5 days, is
    below every stored timestamp, [bisect_left] answers 0 and the series
    after the step is the series before it (also when the date arithmetic
    raises).  [window_days] is never read: two stores that differ only in
    it behave alike under [add_prices]. *)
Theorem pruning_removes_nothing d :
  ascending (ts d) = true →
  (∀ t0 cutoff,
      ts d !! 0%nat = Some t0 →
      Datetime.days_before t0 PRUNE_DAYS = Ok cutoff →
      cutoff = t0 - 5 * 86400 ∧
      (∀ t, t ∈ ts d → cutoff < t) ∧
      bisect_left (ts d) cutoff = 0%nat) ∧
  (drop_old d).2 = d ∧
  (∀ (symbol : Asset) entries m w1 w2,
      (add_prices symbol entries (Store m w1)).1
        = (add_prices symbol entries (Store m w2)).1 ∧
      data (add_prices symbol entries (Store m w1)).2
        = data (add_prices symbol entries (Store m w2)).2).
Proof.
  intros Hsorted. split_and!.
  - intros t0 cutoff. by apply prune_cutoff.
  - by apply drop_old_ascending.
  - apply add_prices_window_days.
Qed.

(** *** [add_prices] with a single entry at or before the last timestamp *)

Lemma last_Some_getlast {A} (l : list A) x :
  last l = Some x → getlast l = Ok x ∧ ∃ y l', l = y :: l'.
Proof.
  unfold getlast. intros H. rewrite H. split; [done|].
  destruct l; [done|eauto].
Qed.

(** An entry older than the last timestamp takes the merge path and is
    skipped; only the pruning step runs. *)
Lemma add_older_to_series d l t p :
  last (ts d) = Some l → t < l →
  add_prices_to_series [(t, p)] d = drop_old d.
Proof.
  intros Hlast Hlt. unfold add_prices_to_series. st_unfold.
  destruct (last_Some_getlast _ _ Hlast) as [Hg (y & l' & Hts)].
  rewrite Hts, <-Hts, Hg, Hlast. cbn.
  rewrite (bool_decide_eq_false_2 (l < t)) by lia.
  rewrite (bool_decide_eq_false_2 (t = l)) by lia. done.
Qed.

(** An entry at the last timestamp takes the merge path and overwrites
    the last price; then the pruning step runs. *)
Lemma add_equal_to_series d t p :
  last (ts d) = Some t → price d ≠ [] →
  add_prices_to_series [(t, p)] d
  = drop_old (Series (ts d) (<[(length (price d) - 1)%nat := p]> (price d))).
Proof.
  intros Hlast Hne. unfold add_prices_to_series. st_unfold.
  destruct (last_Some_getlast _ _ Hlast) as [Hg (y & l' & Hts)].
  rewrite Hts, <-Hts, Hg, Hlast. cbn.
  rewrite (bool_decide_eq_false_2 (t < t)) by lia.
  rewrite (bool_decide_eq_true_2 (t = t)) by done.
  unfold set_last_price. st_unfold. destruct (price d) eqn:Hp; [done|]. done.
Qed.

Lemma store_insert_id s (symbol : Asset) d :
  data s !! symbol = Some d →
  Store (<[symbol := d]> (data s)) (window_days s) = s.
Proof. intros H. rewrite insert_id by done. by destruct s. Qed.

(** What [add_prices] does to the series of [symbol], for a non-empty
    batch and an asset the store knows. *)
Lemma add_prices_known s (symbol : Asset) d e entries :
  data s !! symbol = Some d →
  add_prices symbol (e :: entries) s
  = let '(r, d') := add_prices_to_series (e :: entries) d in
    (r, Store (<[symbol := d']> (data s)) (window_days s)).
Proof. intros H. cbn [add_prices]. unfold with_item. by rewrite H. Qed.

(** C6 (amended): for an asset whose series is non-empty, [add_prices]
    with a single entry strictly older than the last timestamp leaves the
    whole store, and so that series, exactly as it was; and when the
    oldest timestamp is in the range the pruning step's date arithmetic
    accepts, the call returns without raising.  The series is taken with
    its timestamps ascending, as the store keeps every series while the
    batches it is given are sorted (lemma [built_sorted]). *)
Theorem insert_older_leaves_series s (symbol : Asset) d l t p :
  data s !! symbol = Some d →
  ascending (ts d) = true →
  last (ts d) = Some l →
  t < l →
  (add_prices symbol [(t, p)] s).2 = s ∧
  (∀ t0, head (ts d) = Some t0 → prunable t0 →
         add_prices symbol [(t, p)] s = (Ok (), s)).
Proof.
  intros Hd Hsorted Hlast Hlt.
  rewrite (add_prices_known _ _ _ _ _ Hd), (add_older_to_series _ _ _ _ Hlast Hlt).
  split.
  - pose proof (drop_old_ascending d Hsorted) as Hst.
    destruct (drop_old d) as [r d']. cbn in *. subst d'.
    by apply store_insert_id.
  - intros t0 H0 Hr. rewrite (drop_old_ascending_Ok _ _ Hsorted H0 Hr).
    f_equal. by apply store_insert_id.
Qed.

(** C5: for an asset whose series is non-empty, [add_prices] with a
    single entry at the last timestamp keeps the timestamps and the length
    of the series, keeps every price but the last, and makes the last
    price the inserted one; the series of the other assets are untouched.
    The series is taken with its two lists parallel and its timestamps
    ascending, as the store keeps every series while the batches it is
    given are sorted (lemma [built_sorted]). *)
Theorem insert_equal_overwrites_last_price s (symbol : Asset) d t p :
  data s !! symbol = Some d →
  length (ts d) = length (price d) →
  ascending (ts d) = true →
  last (ts d) = Some t →
  ∃ d', data (add_prices symbol [(t, p)] s).2 !! symbol = Some d' ∧
        ts d' = ts d ∧
        length (price d') = length (price d) ∧
        (∀ i, (i < length (price d) - 1)%nat → price d' !! i = price d !! i) ∧
        last (price d') = Some p ∧
        (∀ a, a ≠ symbol →
              data (add_prices symbol [(t, p)] s).2 !! a = data s !! a).
Proof.
  intros Hd Hlen Hsorted Hlast.
  assert (price d ≠ []) as Hne.
  { intros Hp. rewrite Hp in Hlen. destruct (ts d); done. }
  rewrite (add_prices_known _ _ _ _ _ Hd), (add_equal_to_series _ _ _ Hlast Hne).
  set (d1 := Series _ _).
  pose proof (drop_old_ascending d1 Hsorted) as Hst.
  destruct (drop_old d1) as [r d']. cbn in Hst. subst d'. cbn.
  exists d1. split_and!.
  - apply lookup_insert_eq.
  - done.
  - apply length_insert.
  - intros i Hi. cbn. apply list_lookup_insert_ne. lia.
  - cbn. rewrite last_lookup, length_insert.
    replace (Init.Nat.pred (length (price d))) with (length (price d) - 1)%nat by lia.
    apply list_lookup_insert_eq.
    destruct (price d); [done|cbn; lia].
  - intros a Ha. by apply lookup_insert_ne.
Qed.


(** *** [get_prices] *)

Lemma spaced_singleton resolution (e : PriceEntry float) :
  spaced resolution [e].
Proof. intros i e1 e2 _ H. by destruct i. Qed.

Lemma spaced_snoc resolution (l : list (PriceEntry float)) e e' :
  spaced resolution l → last l = Some e → resolution ≤ e'.1 - e.1 →
  spaced resolution (l ++ [e']).
Proof.
  unfold PriceEntry in *. intros Hl Hlast Hle i e1 e2 H1 H2.
  rewrite last_lookup in Hlast.
  destruct (decide (S i < length l)%nat) as [Hi|Hi].
  - rewrite lookup_app_l in H1 by lia. rewrite lookup_app_l in H2 by lia.
    by eapply Hl.
  - assert (S i = length l) as Hi'.
    { apply lookup_lt_Some in H2. rewrite length_app in H2. cbn in H2. lia. }
    rewrite lookup_app_l in H1 by lia.
    rewrite Hi', lookup_app_r in H2 by lia.
    rewrite Nat.sub_diag in H2.
    replace (Init.Nat.pred (length l)) with i in Hlast by lia.
    by simplify_eq/=.
Qed.

(** The loop, on parallel lists of equal length and indices in range,
    returns; it keeps the entries spaced and never touches the first. *)
Lemma resample_loop_spec tss (prices : list float) resolution indices :
  length tss = length prices →
  Forall (λ i, i < length tss)%nat indices →
  ∀ target_next result tl pl,
    spaced resolution result →
    last result = Some (tl, pl) →
    target_next = tl + resolution →
    ∃ out, resample_loop tss prices resolution indices target_next result = Ok out ∧
           spaced resolution out ∧ head out = head result.
Proof.
  intros Hlen. induction 1 as [|i indices Hi _ IH];
    intros target_next result tl pl Hsp Hlast Htarget; cbn [resample_loop].
  { eauto. }
  unfold getitem.
  destruct (lookup_lt_is_Some_2 tss i Hi) as [t Ht]. rewrite Ht.
  case_bool_decide as Hge; [|by eapply IH].
  destruct (lookup_lt_is_Some_2 prices i) as [p Hp]; [lia|]. rewrite Hp.
  destruct (IH (t + resolution) (result ++ [(t, p)]) t p) as (out & Hout & Hsp' & Hhd).
  - eapply spaced_snoc; [done..|]. cbn. lia.
  - by rewrite last_snoc.
  - done.
  - exists out. split_and!; [done..|].
    rewrite Hhd. destruct result; [done|done].
Qed.

(** [resample] returns whenever the start index can be computed. *)
Lemma resample_Ok tss (prices : list float) days resolution i :
  length tss = length prices →
  start_index tss days = Ok i →
  ∃ out, resample tss prices days resolution = Ok out ∧
         spaced resolution out ∧
         ((length tss ≤ i)%nat → out = []) ∧
         (∀ t p, tss !! i = Some t → prices !! i = Some p →
                 head out = Some (t, p)).
Proof.
  intros Hlen Hi. unfold resample. rewrite Hi.
  case_bool_decide as Hn.
  { exists []. split_and!; try done.
    intros t p Ht. apply lookup_lt_Some in Ht. lia. }
  unfold getitem.
  destruct (lookup_lt_is_Some_2 tss i) as [t Ht]; [lia|].
  destruct (lookup_lt_is_Some_2 prices i) as [p Hp]; [lia|].
  rewrite Ht, Hp.
  assert (Forall (λ j, j < length tss)%nat (seq (i + 1) (length tss - (i + 1))))
    as Hidx.
  { apply Forall_forall. intros j Hj. apply elem_of_seq in Hj. lia. }
  destruct (resample_loop_spec tss prices resolution _ Hlen Hidx
              (t + resolution) [(t, p)] t p (spaced_singleton _ _) eq_refl eq_refl)
    as (out & Hout & Hsp & Hhd).
  exists out. split_and!; [done|done|lia|]. intros ? ? ? ?. by simplify_eq.
Qed.

Lemma resample_Raise tss (prices : list float) days resolution e :
  start_index tss days = Raise e →
  resample tss prices days resolution = Raise e.
Proof. intros H. unfold resample. by rewrite H. Qed.

(** For an asset with data, [get_prices] is [resample] on its series. *)
Lemma get_prices_known s (asset : Asset) d days resolution :
  data s !! asset = Some d → ts d ≠ [] →
  get_prices asset days resolution s
  = (resample (ts d) (price d) days resolution, s).
Proof.
  intros Hd Hne. unfold get_prices, data_get. st_unfold. rewrite Hd.
  by destruct (ts d).
Qed.


(** C4: on a series sorted ascending, for every [days] and [resolution],
    consecutive entries of what [get_prices] returns are at least
    [resolution] apart, and its first entry is the entry at the start
    index, the earliest of the entries from that index on.  The call
    raises only when the start index cannot be computed (a date out of
    range). *)
Theorem get_prices_spacing s (asset : Asset) d days resolution :
  data s !! asset = Some d →
  length (ts d) = length (price d) →
  ascending (ts d) = true →
  match (get_prices asset days resolution s).1 with
  | Ok out =>
      spaced resolution out ∧
      (∀ i t p,
          start_index (ts d) days = Ok i →
          ts d !! i = Some t → price d !! i = Some p →
          head out = Some (t, p) ∧
          (∀ j t', (i ≤ j)%nat → ts d !! j = Some t' → t ≤ t'))
  | Raise e => start_index (ts d) days = Raise e
  end.
Proof.
  intros Hd Hlen Hsorted.
  destruct (decide (ts d = [])) as [Hempty|Hne].
  { unfold get_prices, data_get. st_unfold. rewrite Hd, Hempty. cbn.
    split; [by intros [|?] ? ? ? ?|]. by intros [|?] ? ? ? ?. }
  rewrite (get_prices_known _ _ _ _ _ Hd Hne). cbn [fst].
  destruct (start_index (ts d) days) as [i|e] eqn:Hi.
  - destruct (resample_Ok _ (price d) _ resolution _ Hlen Hi)
      as (out & -> & Hsp & _ & Hhd).
    split; [done|]. intros i' t p [= <-] Ht Hp. split; [by apply Hhd|].
    intros j t' Hj Ht'. by eapply (ascending_lookup (ts d) i j).
  - by rewrite (resample_Raise _ _ _ _ _ Hi).
Qed.

Lemma start_index_days tss n tl cutoff :
  n ≠ 0 → last tss = Some tl → Datetime.days_before tl n = Ok cutoff →
  start_index tss (Some n) = Ok (bisect_left tss cutoff).
Proof.
  intros Hn Hlast Hc. unfold start_index, getlast.
  rewrite bool_decide_eq_true_2 by done. by rewrite Hlast, Hc.
Qed.

Lemma start_index_no_days tss days :
  days = None ∨ days = Some 0 → start_index tss days = Ok 0%nat.
Proof. by intros [-> | ->]. Qed.

(** C7 (amended): on a non-empty series sorted ascending, with a [days]
    that is given, is not 0 and has a computable cutoff (the last
    timestamp minus [days] days), [get_prices] starts at the first stored
    entry at or after the cutoff; with [days] absent or 0 it starts at
    index 0; and whenever the start index is at or past the end it returns
    the empty list. *)
Theorem get_prices_start s (asset : Asset) d days resolution :
  data s !! asset = Some d →
  ts d ≠ [] →
  length (ts d) = length (price d) →
  ascending (ts d) = true →
  (∀ n tl cutoff,
      days = Some n → n ≠ 0 →
      last (ts d) = Some tl →
      Datetime.days_before tl n = Ok cutoff →
      cutoff = tl - n * 86400 ∧
      ∃ out i,
        get_prices asset days resolution s = (Ok out, s) ∧
        (∀ j t, (j < i)%nat → ts d !! j = Some t → t < cutoff) ∧
        (∀ t p, ts d !! i = Some t → price d !! i = Some p →
                cutoff ≤ t ∧ head out = Some (t, p)) ∧
        ((length (ts d) ≤ i)%nat → out = [])) ∧
  (days = None ∨ days = Some 0 →
      ∃ out t p,
        get_prices asset days resolution s = (Ok out, s) ∧
        ts d !! 0%nat = Some t ∧ price d !! 0%nat = Some p ∧
        head out = Some (t, p)) ∧
  (∀ i, start_index (ts d) days = Ok i → (length (ts d) ≤ i)%nat →
        get_prices asset days resolution s = (Ok [], s)).
Proof.
  intros Hd Hne Hlen Hsorted.
  rewrite (get_prices_known _ _ _ _ _ Hd Hne). split_and!.
  - intros n tl cutoff -> Hn Hlast Hc. split.
    { by apply days_before_Ok in Hc. }
    pose proof (start_index_days _ _ _ _ Hn Hlast Hc) as Hi.
    destruct (resample_Ok _ (price d) _ resolution _ Hlen Hi)
      as (out & -> & _ & Hpast & Hhd).
    destruct (bisect_left_spec (ts d) cutoff Hsorted) as (_ & Hbelow & Hfrom).
    exists out, (bisect_left (ts d) cutoff). split_and!; [done|done| |done].
    intros t p Ht Hp. split; [by eapply Hfrom|by apply Hhd].
  - intros Hdays. pose proof (start_index_no_days (ts d) _ Hdays) as Hi.
    destruct (resample_Ok _ (price d) _ resolution _ Hlen Hi)
      as (out & -> & _ & _ & Hhd).
    destruct (lookup_lt_is_Some_2 (ts d) 0) as [t Ht].
    { destruct (ts d); [done|cbn; lia]. }
    destruct (lookup_lt_is_Some_2 (price d) 0) as [p Hp].
    { rewrite <-Hlen. destruct (ts d); [done|cbn; lia]. }
    exists out, t, p. split_and!; [done..|]. by apply Hhd.
  - intros i Hi Hpast.
    destruct (resample_Ok _ (price d) _ resolution _ Hlen Hi)
      as (out & -> & _ & Hempty & _).
    by rewrite (Hempty Hpast).
Qed.


(** *** [get_closest_price] *)

(** On parallel lists of equal length, sorted ascending and non-empty,
    [closest] returns a stored entry nearest to [time], the earlier one on
    a tie. *)
Lemma closest_spec tss (prices : list float) time :
  tss ≠ [] → length tss = length prices → ascending tss = true →
  ∃ i t p, closest tss prices time = Ok (t, p) ∧
           tss !! i = Some t ∧ prices !! i = Some p ∧
           (∀ t', t' ∈ tss → Z.abs (t - time) ≤ Z.abs (t' - time)) ∧
           (∀ t', t' ∈ tss → Z.abs (t' - time) = Z.abs (t - time) → t ≤ t').
Proof.
  intros Hne Hlen Hsorted.
  assert (0 < length tss)%nat as Hpos by (destruct tss; [done|cbn; lia]).
  destruct (bisect_left_spec tss time Hsorted) as (Hle & Hbelow & Hfrom).
  unfold closest. set (pos := bisect_left tss time) in *.
  assert (∀ i, (i < length tss)%nat → ∃ t p,
             tss !! i = Some t ∧ prices !! i = Some p) as Hget.
  { intros i Hi.
    destruct (lookup_lt_is_Some_2 tss i) as [t Ht]; [lia|].
    destruct (lookup_lt_is_Some_2 prices i) as [p Hp]; [lia|]. eauto. }
  case_bool_decide as H0; [|case_bool_decide as Hn].
  - destruct (Hget 0%nat) as (t & p & Ht & Hp); [lia|].
    unfold getitem. rewrite Ht, Hp. exists 0%nat, t, p. split_and!; try done.
    + intros t' Ht'. pose proof (ascending_head_le _ _ _ Hsorted Ht Ht').
      assert (time ≤ t) by (eapply (Hfrom 0%nat); [lia|done]). lia.
    + intros t' Ht' _. by eapply ascending_head_le.
  - destruct (Hget (length tss - 1)%nat) as (t & p & Ht & Hp); [lia|].
    unfold getlast. rewrite !last_lookup.
    replace (Init.Nat.pred (length tss)) with (length tss - 1)%nat by lia.
    replace (Init.Nat.pred (length prices)) with (length tss - 1)%nat by lia.
    rewrite Ht, Hp. exists (length tss - 1)%nat, t, p. split_and!; try done.
    + intros t' Ht'. apply list_elem_of_lookup in Ht' as [j Hj].
      pose proof (lookup_lt_Some _ _ _ Hj).
      assert (t' ≤ t) by (eapply (ascending_lookup tss j); [done| |done..]; lia).
      assert (t < time) by (eapply (Hbelow (length tss - 1)%nat); [lia|done]).
      lia.
    + intros t' Ht' Heq. apply list_elem_of_lookup in Ht' as [j Hj].
      pose proof (lookup_lt_Some _ _ _ Hj).
      assert (t' < time) by (eapply (Hbelow j); [lia|done]).
      assert (t < time) by (eapply (Hbelow (length tss - 1)%nat); [lia|done]).
      lia.
  - destruct (Hget (pos - 1)%nat) as (tb & pb & Htb & Hpb); [lia|].
    destruct (Hget pos) as (ta & pa & Hta & Hpa); [lia|].
    unfold getitem. rewrite Htb, Hta.
    assert (tb < time) as Hb by (eapply (Hbelow (pos - 1)%nat); [lia|done]).
    assert (time ≤ ta) as Ha by (eapply (Hfrom pos); [lia|done]).
    assert (∀ t', t' ∈ tss → t' ≤ tb ∧ t' < time ∨ ta ≤ t') as Hsplit.
    { intros t' Ht'. apply list_elem_of_lookup in Ht' as [j Hj].
      destruct (decide (j < pos)%nat).
      - left. split; [|by eapply (Hbelow j)].
        eapply (ascending_lookup tss j (pos - 1)); [done| |done..]. lia.
      - right. eapply (ascending_lookup tss pos j); [done| |done..]. lia. }
    case_bool_decide as Hcmp.
    + rewrite Hpb. exists (pos - 1)%nat, tb, pb. split_and!; try done.
      * intros t' Ht'. destruct (Hsplit t' Ht'); lia.
      * intros t' Ht' Heq. destruct (Hsplit t' Ht'); lia.
    + rewrite Hpa. exists pos, ta, pa. split_and!; try done.
      * intros t' Ht'. destruct (Hsplit t' Ht'); lia.
      * intros t' Ht' Heq. destruct (Hsplit t' Ht'); lia.
Qed.

(** C3: for an asset whose series is non-empty, [get_closest_price]
    returns a stored entry whose timestamp is at the least distance from
    [time] among all stored timestamps, and of the stored timestamps at
    that distance it is the earliest.  The series is taken with its two
    lists parallel and its timestamps ascending, as the store keeps every
    series while the batches it is given are sorted (lemma
    [built_sorted]). *)
Theorem get_closest_price_nearest s (asset : Asset) d time :
  data s !! asset = Some d →
  ts d ≠ [] →
  length (ts d) = length (price d) →
  ascending (ts d) = true →
  ∃ i t p,
    get_closest_price asset time s = (Ok (Some (t, p)), s) ∧
    ts d !! i = Some t ∧ price d !! i = Some p ∧
    (∀ t', t' ∈ ts d → Z.abs (t - time) ≤ Z.abs (t' - time)) ∧
    (∀ t', t' ∈ ts d → Z.abs (t' - time) = Z.abs (t - time) → t ≤ t').
Proof.
  intros Hd Hne Hlen Hsorted.
  destruct (closest_spec (ts d) (price d) time Hne Hlen Hsorted)
    as (i & t & p & Hc & Hrest).
  exists i, t, p. split; [|done].
  unfold get_closest_price, data_get. st_unfold. rewrite Hd.
  destruct (ts d); [done|]. by rewrite Hc.
Qed.


(** *** Invariants kept by [add_prices] *)

(** The merge loop never raises on a well-formed series, keeps it
    well-formed and its last timestamp in step with [last_ts], and keeps
    the timestamps sorted (strictly, when they were), whatever the batch. *)
Lemma merge_loop_spec (pairs : list (Z * float)) d :
  series_wf d →
  ∃ d', merge_loop pairs (last (ts d)) d = (Ok (), d') ∧
        series_wf d' ∧
        (strictly_increasing (ts d) = true → strictly_increasing (ts d') = true) ∧
        (ascending (ts d) = true → ascending (ts d') = true).
Proof.
  revert d. induction pairs as [|[t p] pairs IH]; intros d Hwf.
  { exists d. by split_and!. }
  assert (∀ d1, d1 = Series (ts d ++ [t]) (price d ++ [p]) →
            (∀ l, last (ts d) = Some l → l < t) →
            ∃ d', merge_loop pairs (Some t) d1 = (Ok (), d') ∧
                  series_wf d' ∧
                  (strictly_increasing (ts d) = true →
                   strictly_increasing (ts d') = true) ∧
                  (ascending (ts d) = true → ascending (ts d') = true))
    as Happend.
  { intros d1 -> Hlt.
    destruct (IH (Series (ts d ++ [t]) (price d ++ [p])))
      as (d' & Hm & Hwf' & Hinc & Hasc).
    - unfold series_wf in *. cbn. rewrite !length_app. cbn. lia.
    - cbn in Hm. rewrite last_snoc in Hm. exists d'. split_and!; [done..| |].
      + intros Hd. apply Hinc. cbn. apply (chain_app Z.lt); [done..|].
        intros x y Hx [= <-]. by apply Hlt.
      + intros Hd. apply Hasc. cbn. apply (chain_app Z.le); [done..|].
        intros x y Hx [= <-]. specialize (Hlt _ Hx). lia. }
  cbn [merge_loop]. destruct (last (ts d)) as [l|] eqn:Hlast.
  - case_bool_decide as Hlt; [|case_bool_decide as Heq].
    + unfold append. st_unfold. apply Happend; [done|]. by intros ? [= <-].
    + subst t. unfold set_last_price. st_unfold.
      destruct (price d) as [|p0 ps] eqn:Hp.
      { unfold series_wf in Hwf. rewrite Hp in Hwf. by destruct (ts d). }
      rewrite <-Hp.
      destruct (IH (Series (ts d) (<[(length (price d) - 1)%nat := p]> (price d))))
        as (d' & Hm & Hwf' & Hinc).
      { unfold series_wf in *. cbn. by rewrite length_insert. }
      cbn in Hm. rewrite Hlast in Hm. by exists d'.
    + destruct (IH d Hwf) as (d' & Hm & Hwf' & Hinc).
      rewrite Hlast in Hm. by exists d'.
  - unfold append. st_unfold. by apply Happend.
Qed.

Lemma drop_old_spec d :
  series_wf d →
  series_wf (drop_old d).2 ∧
  (strictly_increasing (ts d) = true →
   strictly_increasing (ts (drop_old d).2) = true).
Proof.
  intros Hwf. unfold drop_old. st_unfold.
  case_bool_decide; [|done].
  destruct (getitem (ts d) 0) as [t0|]; [|done].
  destruct (Datetime.days_before t0 PRUNE_DAYS) as [cutoff|]; [|done].
  case_bool_decide; [|done]. cbn. split.
  - unfold series_wf in *. cbn. rewrite !length_drop. lia.
  - apply (chain_drop Z.lt).
Qed.

(** The two lists of a series stay parallel under [add_prices], whatever
    the batch and whether or not the call raises. *)
Lemma add_prices_to_series_wf entries d :
  series_wf d → series_wf (add_prices_to_series entries d).2.
Proof.
  intros Hwf. unfold add_prices_to_series. st_unfold.
  assert (series_wf (Series (ts d ++ entries.*1) (price d ++ entries.*2))) as Hext.
  { unfold series_wf in *. cbn. rewrite !length_app, !length_fmap. lia. }
  destruct (ts d) as [|t0 l] eqn:Hts.
  { unfold extend. cbn. rewrite Hts. by apply drop_old_spec. }
  rewrite <-Hts. destruct (getitem entries.*1 0) as [t|]; [|done].
  destruct (getlast (ts d)) as [tl|]; [|done].
  rewrite <-Hts in Hext. case_bool_decide.
  - unfold extend. cbn. by apply drop_old_spec.
  - destruct (merge_loop_spec (zip entries.*1 entries.*2) d Hwf)
      as (d' & -> & Hwf' & _).
    by apply drop_old_spec.
Qed.

Lemma add_prices_wf s (symbol : Asset) entries :
  store_wf s → store_wf (add_prices symbol entries s).2.
Proof.
  intros Hs. destruct entries as [|e entries]; [done|].
  cbn [add_prices]. unfold with_item.
  pose proof (add_prices_to_series_wf (e :: entries)
                (default new_series (data s !! symbol))) as Hwf.
  destruct (add_prices_to_series _ _) as [r d']. cbn in *.
  intros a d Ha. cbn in Ha. destruct (decide (a = symbol)) as [->|Hne].
  - rewrite lookup_insert_eq in Ha. simplify_eq. apply Hwf.
    destruct (data s !! symbol) eqn:Hd; [by eapply Hs|done].
  - rewrite lookup_insert_ne in Ha by done. by eapply Hs.
Qed.

Lemma init_wf w : store_wf (init w : PriceStore float).
Proof. intros a d Ha. cbn in Ha. by rewrite lookup_empty in Ha. Qed.

Lemma init_ok w : store_ok (init w : PriceStore float).
Proof. intros a d Ha. cbn in Ha. by rewrite lookup_empty in Ha. Qed.

(** What does hold of invariants I1 and I2: when the timestamps of the
    batch are strictly increasing, [add_prices] keeps every series
    strictly increasing (whether or not it raises). *)
Lemma add_prices_to_series_ok entries d :
  strictly_increasing entries.*1 = true →
  series_ok d → series_ok (add_prices_to_series entries d).2.
Proof.
  intros Hbatch [Hwf Hinc]. split; [by apply add_prices_to_series_wf|].
  unfold add_prices_to_series. st_unfold.
  destruct (ts d) as [|t0 l] eqn:Hts.
  { unfold extend. cbn. rewrite Hts. cbn.
    apply drop_old_spec; [|done].
    unfold series_wf in *. cbn. rewrite Hts in Hwf. cbn in Hwf.
    by rewrite length_app, <-Hwf, !length_fmap. }
  rewrite <-Hts in Hinc |- *. unfold getitem, getlast.
  destruct (entries.*1 !! 0%nat) as [t|] eqn:Ht; [|done].
  destruct (last (ts d)) as [tl|] eqn:Hlast; [|done].
  case_bool_decide as Hlt.
  - unfold extend. cbn. apply drop_old_spec.
    + unfold series_wf in *. cbn. rewrite !length_app, !length_fmap. lia.
    + cbn. apply (chain_app Z.lt); [done..|].
      intros x y Hx Hy. rewrite head_lookup, Ht in Hy. by simplify_eq.
  - destruct (merge_loop_spec (zip entries.*1 entries.*2) d Hwf)
      as (d' & Hm & Hwf' & Hinc' & _).
    rewrite Hlast in Hm. rewrite Hm. apply drop_old_spec; auto.
Qed.

Lemma add_prices_ok s (symbol : Asset) entries :
  strictly_increasing entries.*1 = true →
  store_ok s → store_ok (add_prices symbol entries s).2.
Proof.
  intros Hbatch Hs. destruct entries as [|e entries]; [done|].
  cbn [add_prices]. unfold with_item.
  pose proof (add_prices_to_series_ok (e :: entries)
                (default new_series (data s !! symbol)) Hbatch) as Hok.
  destruct (add_prices_to_series _ _) as [r d']. cbn in *.
  intros a d Ha. cbn in Ha. destruct (decide (a = symbol)) as [->|Hne].
  - rewrite lookup_insert_eq in Ha. simplify_eq. apply Hok.
    destruct (data s !! symbol) eqn:Hd; [by eapply Hs|done].
  - rewrite lookup_insert_ne in Ha by done. by eapply Hs.
Qed.


(** *** Stores built under the caller's contract *)

Lemma days_before_Ok_prunable t0 c :
  Datetime.days_before t0 PRUNE_DAYS = Ok c → prunable t0.
Proof.
  unfold Datetime.days_before, Datetime.representable, prunable, PRUNE_DAYS,
    Datetime.MIN_TS, Datetime.MAX_TS, Datetime.SECONDS_PER_DAY.
  intros H. repeat (case_match; try done).
  repeat match goal with
         | H : negb _ = false |- _ => apply negb_false_iff in H
         | H : _ && _ = true |- _ => apply andb_true_iff in H as [? ?]
         | H : bool_decide _ = true |- _ => apply bool_decide_eq_true in H
         end.
  lia.
Qed.

(** When the pruning step returns, the oldest timestamp was in range. *)
Lemma drop_old_Ok_prunable d d' t0 :
  drop_old d = (Ok (), d') → head (ts d) = Some t0 → prunable t0.
Proof.
  unfold drop_old, getitem. st_unfold. intros H H0.
  destruct (ts d) as [|t l] eqn:Hts; [done|]. simplify_eq/=.
  destruct (Datetime.days_before t0 PRUNE_DAYS) as [c|] eqn:Hc; [|done].
  by eapply days_before_Ok_prunable.
Qed.

Lemma add_prices_to_series_sorted entries d d' :
  entries ≠ [] →
  ascending entries.*1 = true →
  series_sorted d →
  add_prices_to_series entries d = (Ok (), d') →
  series_sorted d'.
Proof.
  intros Hne Hbatch (Hwf & Hasc & _).
  pose proof (add_prices_to_series_wf entries d Hwf) as Hwf'.
  unfold add_prices_to_series in *. st_unfold.
  assert (∀ d1, ascending (ts d1) = true → ts d1 ≠ [] →
                series_wf (drop_old d1).2 →
                drop_old d1 = (Ok (), d') → series_sorted d') as Hfinish.
  { intros d1 Hasc1 Hne1 Hwf1 Hdrop.
    pose proof (drop_old_ascending d1 Hasc1) as Hsame.
    rewrite Hdrop in Hsame, Hwf1. cbn in Hsame, Hwf1. subst d1.
    split_and!; [done..|].
    intros t0 H0. by eapply drop_old_Ok_prunable. }
  assert (entries.*1 ≠ []) as Hne' by (by destruct entries).
  destruct (ts d) as [|t0 l] eqn:Hts.
  { unfold extend in *. cbn in *. rewrite Hts in *. cbn in *.
    intros Hdrop. by eapply Hfinish; [| |exact Hwf'|exact Hdrop]. }
  rewrite <-Hts in Hasc, Hwf' |- *. unfold getitem, getlast in *.
  destruct (entries.*1 !! 0%nat) as [t|] eqn:Ht; [|done].
  destruct (last (ts d)) as [tl|] eqn:Hlast; [|done].
  case_bool_decide as Hlt.
  - unfold extend in *. cbn in *. intros Hdrop.
    eapply Hfinish; [| |exact Hwf'|exact Hdrop]; cbn.
    + apply (chain_app Z.le); [done..|].
      intros x y Hx Hy. rewrite head_lookup, Ht in Hy. simplify_eq. lia.
    + rewrite Hts. done.
  - destruct (merge_loop_spec (zip entries.*1 entries.*2) d Hwf)
      as (d1 & Hm & Hwf1 & _ & Hasc1).
    rewrite Hlast in Hm. rewrite Hm in Hwf' |- *. intros Hdrop.
    eapply Hfinish; [| |exact Hwf'|exact Hdrop]; [by apply Hasc1|].
    intros Hempty. rewrite Hdrop in Hwf'. clear Hfinish.
    (* the merge loop only appends: a non-empty series stays non-empty *)
    assert (∀ pairs last_ts (d0 d2 : series float),
              ts d0 ≠ [] → merge_loop pairs last_ts d0 = (Ok (), d2) →
              ts d2 ≠ []) as Hgrow.
    { clear. induction pairs as [|[t p] pairs IH]; intros last_ts d0 d2 Hd0.
      - cbn. st_unfold. by intros [= <-].
      - cbn [merge_loop]. unfold append, set_last_price. st_unfold.
        assert (ts d0 ++ [t] ≠ []) by (by destruct (ts d0)).
        destruct last_ts as [l|]; [|by apply IH].
        case_bool_decide; [by apply IH|].
        case_bool_decide; [|by apply IH].
        destruct (price d0); [done|]. by apply IH. }
    eapply (Hgrow _ _ d d1); [by rewrite Hts|done|done].
Qed.

(** In a store built under the contract every series has parallel lists,
    ascending timestamps and an oldest timestamp in the range of the
    pruning step: the assumptions made on a series in this file hold in
    all of them. *)
Lemma reachable_sorted s :
  reachable s → ∀ a d, data s !! a = Some d → series_sorted d.
Proof.
  induction 1 as [w|s symbol entries s' _ IH Hbatch Hadd].
  { intros a d Ha. cbn in Ha. by rewrite lookup_empty in Ha. }
  destruct entries as [|e entries].
  { cbn in Hadd. st_unfold. by simplify_eq. }
  cbn [add_prices] in Hadd. unfold with_item in Hadd.
  destruct (add_prices_to_series (e :: entries)
              (default new_series (data s !! symbol))) as [r d'] eqn:Hbody.
  simplify_eq. intros a d Ha. cbn in Ha.
  destruct (decide (a = symbol)) as [->|Hne].
  - rewrite lookup_insert_eq in Ha. simplify_eq.
    eapply add_prices_to_series_sorted; [| |  |exact Hbody]; [done|done|].
    destruct (data s !! symbol) as [d0|] eqn:Hd0; [by eapply IH|].
    split_and!; done.
  - rewrite lookup_insert_ne in Ha by done. by eapply IH.
Qed.


(** So, in a store built under the contract, an entry older than the last
    timestamp of its asset is dropped without a trace and without an
    error. *)
Lemma insert_older_in_reachable s (symbol : Asset) d l t p :
  reachable s →
  data s !! symbol = Some d → last (ts d) = Some l → t < l →
  add_prices symbol [(t, p)] s = (Ok (), s).
Proof.
  intros Hs Hd Hlast Hlt.
  destruct (reachable_sorted s Hs _ _ Hd) as (_ & Hasc & Hhead).
  destruct (last_Some_getlast _ _ Hlast) as [_ (t0 & l' & Hts)].
  rewrite (add_prices_known _ _ _ _ _ Hd), (add_older_to_series _ _ _ _ Hlast Hlt).
  rewrite (drop_old_ascending_Ok d t0); [|done|by rewrite Hts|].
  - f_equal. by apply store_insert_id.
  - apply Hhead. by rewrite Hts.
Qed.

End Properties.

(** * Further properties of the code *)

Section More.

Context {float : Type}.
Implicit Types (s : PriceStore float) (d : series float).
Implicit Types (entries : list (PriceEntry float)) (p : float).

(** ** [add_prices]: what a call does to the store *)

(** The store that [add_prices] leaves behind holds, for [symbol], the
    series its body made of the stored one (or of a fresh one). *)
Lemma add_prices_data s (symbol : Asset) e entries :
  data (add_prices symbol (e :: entries) s).2
  = <[symbol := (add_prices_to_series (e :: entries)
                   (default new_series (data s !! symbol))).2]> (data s) ∧
  (add_prices symbol (e :: entries) s).1
  = (add_prices_to_series (e :: entries)
       (default new_series (data s !! symbol))).1.
Proof.
  cbn [add_prices]. unfold with_item.
  by destruct (add_prices_to_series _ _) as [r d'].
Qed.

Lemma add_prices_other s (symbol : Asset) entries :
  (∀ a, a ≠ symbol →
        data (add_prices symbol entries s).2 !! a = data s !! a) ∧
  window_days (add_prices symbol entries s).2 = window_days s.
Proof.
  destruct entries as [|e entries]; [done|].
  cbn [add_prices]. unfold with_item.
  destruct (add_prices_to_series _ _) as [r d']. cbn. split; [|done].
  intros a Ha. by rewrite lookup_insert_ne.
Qed.

(** X1: [add_prices] touches one asset only: the series of every other
    asset and [window_days] are what they were, whatever the batch and
    whether the call returns or raises. *)
Theorem add_prices_frame s (symbol : Asset) entries :
  (∀ a, a ≠ symbol →
        data (add_prices symbol entries s).2 !! a = data s !! a) ∧
  window_days (add_prices symbol entries s).2 = window_days s.
Proof. apply add_prices_other. Qed.

Lemma zip_unzip entries : zip entries.*1 entries.*2 = entries.
Proof. induction entries as [|[t p] entries IH]; [done|]. cbn. by rewrite IH. Qed.

(** On the fast path the batch is appended as it is, then the pruning
    step runs. *)
Lemma add_prices_to_series_fast entries d :
  entries ≠ [] → fast_path d entries = true →
  add_prices_to_series entries d
  = drop_old (Series (ts d ++ entries.*1) (price d ++ entries.*2)).
Proof.
  intros Hne Hfast. unfold add_prices_to_series, fast_path in *. st_unfold.
  destruct entries as [|[t0 p0] entries]; [done|]. cbn in Hfast.
  unfold getitem, getlast, extend. cbn.
  destruct (last (ts d)) as [tl|] eqn:Hlast.
  - destruct (ts d) as [|t l] eqn:Hts; [done|]. rewrite Hfast. cbn. by rewrite Hts.
  - apply last_None in Hlast. rewrite Hlast. cbn. by rewrite Hlast.
Qed.

(** Otherwise the merge loop runs over the batch, then the pruning step. *)
Lemma add_prices_to_series_merge entries d :
  entries ≠ [] → fast_path d entries = false →
  add_prices_to_series entries d
  = (merge_loop entries (last (ts d));; drop_old) d.
Proof.
  intros Hne Hfast. unfold add_prices_to_series, fast_path in *. st_unfold.
  rewrite zip_unzip.
  destruct entries as [|[t0 p0] entries]; [done|]. cbn in Hfast.
  destruct (last (ts d)) as [tl|] eqn:Hlast; [|done].
  destruct (ts d) as [|t l] eqn:Hts; [done|]. rewrite <-Hts in *.
  unfold getitem, getlast. cbn. by rewrite Hlast, Hfast.
Qed.


(** *** The merge loop on a strictly increasing batch *)

Lemma strictly_increasing_cons t l :
  strictly_increasing (t :: l) = true →
  strictly_increasing l = true ∧ ∀ t', t' ∈ l → t < t'.
Proof.
  intros H. split.
  - apply (chain_drop Z.lt _ 1) in H. exact H.
  - intros t' Ht'. apply list_elem_of_lookup in Ht' as [j Hj].
    eapply (strictly_increasing_lookup (t :: l) 0 (S j)); [done|lia|done..].
Qed.

Lemma newer_than_cons l t p entries :
  newer_than l ((t, p) :: entries)
  = if bool_decide (l < t) then (t, p) :: newer_than l entries
    else newer_than l entries.
Proof.
  unfold newer_than. case_bool_decide.
  - by rewrite filter_cons_True.
  - by rewrite filter_cons_False.
Qed.

Lemma price_at_cons l t p entries :
  price_at l ((t, p) :: entries)
  = if bool_decide (t = l) then Some p else price_at l entries.
Proof.
  unfold price_at. case_bool_decide.
  - by rewrite filter_cons_True.
  - by rewrite filter_cons_False.
Qed.

Lemma newer_than_all l entries :
  (∀ t, t ∈ entries.*1 → l < t) →
  newer_than l entries = entries ∧ price_at l entries = None.
Proof.
  induction entries as [|[t p] entries IH]; intros H; [done|].
  assert (l < t) as Hlt by (apply H; cbn; apply elem_of_cons; by left).
  assert (∀ t', t' ∈ entries.*1 → l < t') as Htail.
  { intros t' Ht'. apply H. cbn. apply elem_of_cons. by right. }
  destruct (IH Htail) as [IH1 IH2].
  rewrite newer_than_cons, price_at_cons.
  rewrite bool_decide_eq_true_2 by done.
  rewrite bool_decide_eq_false_2 by lia. by rewrite IH1.
Qed.

(** Entries that are all newer than the last timestamp are appended one
    by one: the loop ends with the batch at the end of the series. *)
Lemma merge_loop_all_newer (pairs : list (Z * float)) d :
  strictly_increasing pairs.*1 = true →
  (∀ l t, last (ts d) = Some l → t ∈ pairs.*1 → l < t) →
  merge_loop pairs (last (ts d)) d
  = (Ok (), Series (ts d ++ pairs.*1) (price d ++ pairs.*2)).
Proof.
  revert d. induction pairs as [|[t p] pairs IH]; intros d Hinc Hnew.
  { cbn. st_unfold. destruct d. cbn. by rewrite !app_nil_r. }
  cbn in Hinc. apply strictly_increasing_cons in Hinc as [Hinc Hhead].
  assert (merge_loop ((t, p) :: pairs) (last (ts d)) d
          = merge_loop pairs (Some t) (Series (ts d ++ [t]) (price d ++ [p])))
    as ->.
  { cbn [merge_loop]. unfold append. st_unfold.
    destruct (last (ts d)) as [l|] eqn:Hlast; [|done].
    rewrite bool_decide_eq_true_2; [done|].
    apply (Hnew l t); [done|]. cbn. apply elem_of_cons. by left. }
  specialize (IH (Series (ts d ++ [t]) (price d ++ [p])) Hinc).
  cbn in IH. rewrite last_snoc in IH. rewrite IH.
  - cbn. by rewrite <-!app_assoc.
  - intros l t' [= <-] Ht'. by apply Hhead.
Qed.

(** The merge loop on a batch with strictly increasing timestamps: the
    entries newer than the last timestamp [l] are appended, the price at
    [l] is replaced when the batch has an entry for [l], and the older
    entries are dropped. *)
Lemma merge_loop_strict (pairs : list (Z * float)) d l :
  series_wf d → last (ts d) = Some l →
  strictly_increasing pairs.*1 = true →
  merge_loop pairs (Some l) d
  = (Ok (),
     Series (ts d ++ (newer_than l pairs).*1)
            (match price_at l pairs with
             | Some p => <[(length (price d) - 1)%nat := p]> (price d)
             | None => price d
             end ++ (newer_than l pairs).*2)).
Proof.
  intros Hwf Hlast. induction pairs as [|[t p] pairs IH]; intros Hinc.
  { cbn. st_unfold. destruct d. cbn. by rewrite !app_nil_r. }
  cbn in Hinc. pose proof Hinc as Hstrict.
  apply strictly_increasing_cons in Hinc as [Hinc Hhead].
  destruct (Z.lt_trichotomy t l) as [Hlt|[Heq|Hgt]].
  - (* older: skipped *)
    cbn [merge_loop].
    rewrite (bool_decide_eq_false_2 (l < t)) by lia.
    rewrite (bool_decide_eq_false_2 (t = l)) by lia.
    rewrite (IH Hinc), newer_than_cons, price_at_cons.
    rewrite (bool_decide_eq_false_2 (l < t)) by lia.
    by rewrite (bool_decide_eq_false_2 (t = l)) by lia.
  - (* at the last timestamp: the price is overwritten, the rest is newer *)
    subst t. cbn [merge_loop].
    rewrite (bool_decide_eq_false_2 (l < l)) by lia.
    rewrite (bool_decide_eq_true_2 (l = l)) by done.
    unfold set_last_price. st_unfold.
    destruct (price d) as [|p0 ps] eqn:Hp.
    { unfold series_wf in Hwf. rewrite Hp in Hwf.
      destruct (ts d); [done|done]. }
    rewrite <-Hp.
    pose proof (merge_loop_all_newer pairs
      (Series (ts d) (<[(length (price d) - 1)%nat := p]> (price d))) Hinc)
      as Hall.
    cbn in Hall. rewrite Hlast in Hall. rewrite Hall.
    2:{ intros l' t' [= <-] Ht'. by apply Hhead. }
    destruct (newer_than_all l pairs Hhead) as [Hnew _].
    rewrite newer_than_cons, price_at_cons, Hnew.
    rewrite (bool_decide_eq_false_2 (l < l)) by lia.
    by rewrite (bool_decide_eq_true_2 (l = l)) by done.
  - (* newer: so is everything after it *)
    pose proof (merge_loop_all_newer ((t, p) :: pairs) d Hstrict) as Hall.
    rewrite Hlast in Hall. rewrite Hall.
    2:{ intros l' t' [= <-] Ht'. cbn in Ht'.
        apply elem_of_cons in Ht' as [->|Ht']; [done|].
        specialize (Hhead _ Ht'). lia. }
    destruct (newer_than_all l ((t, p) :: pairs)) as [-> ->]; [|done].
    intros t' Ht'. cbn in Ht'.
    apply elem_of_cons in Ht' as [->|Ht']; [done|].
    specialize (Hhead _ Ht'). lia.
Qed.


(** *** The pruning step and the oldest timestamp *)

Lemma days_before_not_prunable t0 :
  ¬ prunable t0 → Datetime.days_before t0 PRUNE_DAYS = Raise DateRangeError.
Proof.
  intros Hn. destruct (Datetime.days_before t0 PRUNE_DAYS) as [c|e] eqn:Hc.
  - by apply days_before_Ok_prunable in Hc.
  - by destruct e; revert Hc; unfold Datetime.days_before;
      repeat case_match.
Qed.

(** With an oldest timestamp out of range the pruning step raises and
    leaves the series as it is. *)
Lemma drop_old_not_prunable d t0 :
  head (ts d) = Some t0 → ¬ prunable t0 →
  drop_old d = (Raise DateRangeError, d).
Proof.
  intros H0 Hn. unfold drop_old, getitem. st_unfold.
  destruct (ts d) as [|t l] eqn:Hts; [done|]. simplify_eq/=.
  by rewrite (days_before_not_prunable _ Hn).
Qed.

(** The outcome of the pruning step on a sorted series depends on the
    oldest timestamp alone. *)
Lemma drop_old_ascending_outcome d t0 :
  ascending (ts d) = true → head (ts d) = Some t0 →
  (prunable t0 → drop_old d = (Ok (), d)) ∧
  (¬ prunable t0 → drop_old d = (Raise DateRangeError, d)).
Proof.
  intros Hasc H0. split.
  - by apply drop_old_ascending_Ok.
  - by apply drop_old_not_prunable.
Qed.

(** ** [add_prices]: the first write for an asset *)

(** X2: the first non-empty batch for an asset (unknown, or with an empty
    series), sorted ascending, is stored exactly as given.  The call
    returns when the first timestamp is in the range of the pruning step
    and raises otherwise; the batch is stored in both cases. *)
Theorem add_prices_first_write s (symbol : Asset) entries t0 :
  (data s !! symbol = None ∨ data s !! symbol = Some new_series) →
  head entries.*1 = Some t0 →
  ascending entries.*1 = true →
  data (add_prices symbol entries s).2 !! symbol
    = Some (Series entries.*1 entries.*2) ∧
  (prunable t0 → (add_prices symbol entries s).1 = Ok ()) ∧
  (¬ prunable t0 → (add_prices symbol entries s).1 = Raise DateRangeError).
Proof.
  intros Hd H0 Hasc.
  destruct entries as [|e entries]; [done|].
  destruct (add_prices_data s symbol e entries) as [-> ->].
  assert (default new_series (data s !! symbol) = new_series) as ->.
  { by destruct Hd as [-> | ->]. }
  rewrite add_prices_to_series_fast by done. cbn [new_series ts price app].
  destruct (drop_old_ascending_outcome
              (Series (e :: entries).*1 (e :: entries).*2) t0 Hasc H0)
    as [Hok Hraise].
  split_and!.
  - rewrite lookup_insert_eq. f_equal.
    by apply (drop_old_ascending (Series (e :: entries).*1 (e :: entries).*2)).
  - intros Hr. by rewrite (Hok Hr).
  - intros Hr. by rewrite (Hraise Hr).
Qed.


(** ** [add_prices] on an asset that has data *)

(** The merge loop only appends timestamps, and of the prices that were
    there it can change the last one only. *)
Lemma merge_loop_prefix (pairs : list (Z * float)) d d' :
  series_wf d →
  merge_loop pairs (last (ts d)) d = (Ok (), d') →
  ts d `prefix_of` ts d' ∧
  (∀ i, (S i < length (ts d))%nat → price d' !! i = price d !! i).
Proof.
  revert d. induction pairs as [|[t p] pairs IH]; intros d Hwf Hm.
  { cbn in Hm. st_unfold. by simplify_eq. }
  assert (∀ d1, d1 = Series (ts d ++ [t]) (price d ++ [p]) →
            merge_loop pairs (Some t) d1 = (Ok (), d') →
            ts d `prefix_of` ts d' ∧
            (∀ i, (S i < length (ts d))%nat → price d' !! i = price d !! i))
    as Happend.
  { intros d1 -> Hm1.
    destruct (IH (Series (ts d ++ [t]) (price d ++ [p]))) as [Hpre Hpr].
    - unfold series_wf in *. cbn. rewrite !length_app. cbn. lia.
    - cbn. by rewrite last_snoc.
    - cbn in Hpre, Hpr. split.
      + etrans; [|exact Hpre]. by apply prefix_app_r.
      + intros i Hi. rewrite Hpr by (rewrite length_app; cbn; lia).
        apply lookup_app_l. unfold series_wf in Hwf. lia. }
  cbn [merge_loop] in Hm. destruct (last (ts d)) as [l|] eqn:Hlast.
  - case_bool_decide as Hlt; [|case_bool_decide as Heq].
    + unfold append in Hm. st_unfold. by eapply Happend.
    + unfold set_last_price in Hm. st_unfold.
      destruct (price d) as [|p0 ps] eqn:Hp; [done|]. rewrite <-Hp in *.
      destruct (IH (Series (ts d) (<[(length (price d) - 1)%nat := p]> (price d))))
        as [Hpre Hpr].
      * unfold series_wf in *. cbn. by rewrite length_insert.
      * cbn. by rewrite Hlast.
      * cbn in Hpre, Hpr. split; [done|]. intros i Hi.
        rewrite Hpr by done. apply list_lookup_insert_ne.
        unfold series_wf in Hwf. lia.
    + apply IH; [done|]. by rewrite Hlast.
  - unfold append in Hm. st_unfold. by eapply Happend.
Qed.

(** Whatever the batch, the insert part of [add_prices] (before pruning)
    on a well-formed series returns, keeps the stored timestamps as a
    prefix and keeps every stored price but the last. *)
Lemma insert_phase entries d :
  entries ≠ [] → series_wf d →
  ∃ d1, add_prices_to_series entries d = drop_old d1 ∧
        series_wf d1 ∧
        ts d `prefix_of` ts d1 ∧
        (∀ i, (S i < length (ts d))%nat → price d1 !! i = price d !! i) ∧
        (ascending (ts d) = true → ascending entries.*1 = true →
         ascending (ts d1) = true).
Proof.
  intros Hne Hwf. destruct (fast_path d entries) eqn:Hfast.
  - exists (Series (ts d ++ entries.*1) (price d ++ entries.*2)).
    split_and!.
    + by apply add_prices_to_series_fast.
    + unfold series_wf in *. cbn. rewrite !length_app, !length_fmap. lia.
    + by apply prefix_app_r.
    + intros i Hi. cbn. apply lookup_app_l. unfold series_wf in Hwf. lia.
    + intros Hd Hb. cbn. apply (chain_app Z.le); [done..|].
      intros x y Hx Hy. unfold fast_path in Hfast. rewrite Hx, Hy in Hfast.
      apply bool_decide_eq_true in Hfast. lia.
  - destruct (merge_loop_spec entries d Hwf) as (d1 & Hm & Hwf1 & _ & Hasc1).
    destruct (merge_loop_prefix entries d d1 Hwf Hm) as [Hpre Hpr].
    exists d1. split_and!; try done.
    + rewrite add_prices_to_series_merge by done. st_unfold. by rewrite Hm.
    + intros Hd _. by apply Hasc1.
Qed.

(** *** Stores built with sorted batches, returning or not *)

Lemma reachable_built s : reachable s → built s.
Proof.
  induction 1 as [w|s symbol entries s' _ IH Hbatch Hadd]; [constructor|].
  replace s' with (add_prices symbol entries s).2 by (by rewrite Hadd).
  by constructor.
Qed.

(** In every store built with sorted batches the two lists of a series
    run in parallel and the timestamps are ascending, also after calls
    that raised: the sortedness assumed of a stored series in this file is
    an invariant of the store under the caller's contract. *)
Lemma built_sorted s :
  built s →
  ∀ a d, data s !! a = Some d →
         length (ts d) = length (price d) ∧ ascending (ts d) = true.
Proof.
  induction 1 as [w|s symbol entries _ IH Hbatch].
  { intros a d Ha. cbn in Ha. by rewrite lookup_empty in Ha. }
  destruct entries as [|e entries]; [done|].
  intros a d Ha. destruct (decide (a = symbol)) as [->|Hne].
  - destruct (add_prices_data s symbol e entries) as [Hdata _].
    pose proof (eq_trans (eq_sym Ha) (f_equal (.!! symbol) Hdata)) as Hd.
    rewrite lookup_insert_eq in Hd. simplify_eq. clear Ha Hdata.
    set (d0 := default new_series (data s !! symbol)).
    assert (series_wf d0 ∧ ascending (ts d0) = true) as [Hwf Hasc].
    { subst d0. destruct (data s !! symbol) as [d0|] eqn:Hd0; [by eapply IH|done]. }
    destruct (insert_phase (e :: entries) d0)
      as (d1 & Heq & Hwf1 & _ & _ & Hasc1); [done..|].
    assert ((add_prices_to_series (e :: entries) d0).2 = d1) as Hd1.
    { rewrite Heq. apply drop_old_ascending. auto. }
    pose proof (conj Hwf1 (Hasc1 Hasc Hbatch)) as Hgoal.
    rewrite <-Hd1 in Hgoal. exact Hgoal.
  - destruct (add_prices_other s symbol (e :: entries)) as [Hother _].
    rewrite Hother in Ha by done. by eapply IH.
Qed.

(** X3: [add_prices] never rewrites history.  On a series sorted
    ascending and a batch sorted ascending, the timestamps stored before
    the call are a prefix of those stored after it, and every price but
    the one at the last stored timestamp is unchanged, whether the call
    returns or raises. *)
Theorem add_prices_append_only s (symbol : Asset) d entries :
  data s !! symbol = Some d →
  length (ts d) = length (price d) →
  ascending (ts d) = true →
  ascending entries.*1 = true →
  ∃ d', data (add_prices symbol entries s).2 !! symbol = Some d' ∧
        ts d `prefix_of` ts d' ∧
        (∀ i, (S i < length (ts d))%nat → price d' !! i = price d !! i) ∧
        length (ts d') = length (price d') ∧
        ascending (ts d') = true.
Proof.
  intros Hd Hwf Hasc Hbatch. destruct entries as [|e entries].
  { exists d. by split_and!. }
  destruct (add_prices_data s symbol e entries) as [-> _]. rewrite Hd. cbn.
  destruct (insert_phase (e :: entries) d) as (d1 & -> & Hwf1 & Hpre & Hpr & Hasc1);
    [done..|].
  rewrite (drop_old_ascending d1) by auto.
  exists d1. rewrite lookup_insert_eq. split_and!; auto.
Qed.

(** X4: an asset whose oldest stored timestamp is outside the range of
    the pruning step's date arithmetic (a timestamp in milliseconds, for
    one) cannot be written to without an error any more: every
    [add_prices] with a non-empty batch raises. *)
Theorem add_prices_out_of_range_raises s (symbol : Asset) d t0 entries :
  data s !! symbol = Some d →
  length (ts d) = length (price d) →
  head (ts d) = Some t0 →
  ¬ prunable t0 →
  entries ≠ [] →
  (add_prices symbol entries s).1 = Raise DateRangeError.
Proof.
  intros Hd Hwf H0 Hn Hne. destruct entries as [|e entries]; [done|].
  destruct (add_prices_data s symbol e entries) as [_ ->]. rewrite Hd. cbn.
  destruct (insert_phase (e :: entries) d) as (d1 & -> & _ & Hpre & _);
    [done..|].
  rewrite (drop_old_not_prunable d1 t0); [done| |done].
  destruct Hpre as [k ->]. by destruct (ts d).
Qed.


(** The insert part of [add_prices] on a sorted series with last
    timestamp [l] and a batch with strictly increasing timestamps, on
    either path. *)
Lemma add_prices_to_series_strict d l entries :
  series_wf d → ascending (ts d) = true → last (ts d) = Some l →
  entries ≠ [] → strictly_increasing entries.*1 = true →
  let target :=
    Series (ts d ++ (newer_than l entries).*1)
           (match price_at l entries with
            | Some p => <[(length (price d) - 1)%nat := p]> (price d)
            | None => price d
            end ++ (newer_than l entries).*2) in
  add_prices_to_series entries d = drop_old target ∧
  ascending (ts target) = true.
Proof.
  intros Hwf Hasc Hlast Hne Hinc target.
  pose proof (strictly_increasing_ascending _ Hinc) as Hbatch.
  destruct (fast_path d entries) eqn:Hfast.
  - rewrite add_prices_to_series_fast by done.
    assert (∀ t, t ∈ entries.*1 → l < t) as Hall.
    { unfold fast_path in Hfast. rewrite Hlast in Hfast.
      destruct entries as [|[t0 p0] entries]; [done|]. cbn in Hfast, Hinc.
      apply bool_decide_eq_true in Hfast.
      apply strictly_increasing_cons in Hinc as [_ Hhead].
      intros t Ht. cbn in Ht. apply elem_of_cons in Ht as [->|Ht]; [done|].
      specialize (Hhead _ Ht). lia. }
    subst target. destruct (newer_than_all l entries Hall) as [-> ->].
    split; [done|]. cbn [ts].
    apply (chain_app Z.le); [done..|].
    intros x y Hx Hy. assert (x = l) as -> by congruence.
    assert (l < y); [|lia]. apply Hall.
    apply head_Some_elem_of. exact Hy.
  - rewrite add_prices_to_series_merge by done. st_unfold. rewrite Hlast.
    destruct (merge_loop_spec entries d Hwf) as (d1 & Hm & _ & _ & Hasc1).
    rewrite Hlast in Hm.
    rewrite (merge_loop_strict entries d l Hwf Hlast Hinc) in Hm |- *.
    split; [done|]. simplify_eq. by apply Hasc1.
Qed.

(** X5: what [add_prices] stores from a batch with strictly increasing
    timestamps, on a series sorted ascending whose last timestamp is [l]:
    the entries newer than [l] are appended in order, the price at [l] is
    replaced by the batch's price for [l] if it has one, the entries older
    than [l] are dropped, and nothing else changes. *)
Theorem add_prices_strict_batch s (symbol : Asset) d l entries :
  data s !! symbol = Some d →
  length (ts d) = length (price d) →
  ascending (ts d) = true →
  last (ts d) = Some l →
  entries ≠ [] →
  strictly_increasing entries.*1 = true →
  data (add_prices symbol entries s).2 !! symbol
  = Some (Series (ts d ++ (newer_than l entries).*1)
                 (match price_at l entries with
                  | Some p => <[(length (price d) - 1)%nat := p]> (price d)
                  | None => price d
                  end ++ (newer_than l entries).*2)).
Proof.
  intros Hd Hwf Hasc Hlast Hne Hinc. destruct entries as [|e entries]; [done|].
  destruct (add_prices_data s symbol e entries) as [-> _]. rewrite Hd.
  change (default new_series (Some d)) with d.
  rewrite lookup_insert_eq. f_equal.
  destruct (add_prices_to_series_strict d l (e :: entries)) as [-> Htarget];
    [done..|].
  by apply drop_old_ascending.
Qed.


(** *** Adding the same batch again *)

(** A batch whose entries are all older than the last timestamp, or sit
    at it with the price already stored, leaves the series as it is. *)
Lemma merge_loop_noop (pairs : list (Z * float)) d L q :
  last (ts d) = Some L → last (price d) = Some q →
  (∀ t p, (t, p) ∈ pairs → t < L ∨ (t = L ∧ p = q)) →
  merge_loop pairs (Some L) d = (Ok (), d).
Proof.
  intros Hts Hpr. induction pairs as [|[t p] pairs IH]; intros Hall; [done|].
  assert (merge_loop pairs (Some L) d = (Ok (), d)) as Hrest.
  { apply IH. intros t' p' H'. apply Hall, elem_of_cons. by right. }
  cbn [merge_loop]. destruct (Hall t p) as [Hlt|[-> ->]].
  { apply elem_of_cons. by left. }
  - rewrite (bool_decide_eq_false_2 (L < t)) by lia.
    by rewrite (bool_decide_eq_false_2 (t = L)) by lia.
  - rewrite (bool_decide_eq_false_2 (L < L)) by lia.
    rewrite (bool_decide_eq_true_2 (L = L)) by done.
    unfold set_last_price. st_unfold.
    destruct (price d) as [|p0 ps] eqn:Hp; [done|]. rewrite <-Hp in *.
    rewrite list_insert_id.
    + destruct d. exact Hrest.
    + rewrite last_lookup in Hpr.
      by replace (length (price d) - 1)%nat with (Init.Nat.pred (length (price d)))
        by lia.
Qed.

(** In a batch with strictly increasing timestamps, every entry but the
    last is older than the last. *)
Lemma strict_batch_last (init : list (Z * float)) tn pn t p :
  strictly_increasing (init ++ [(tn, pn)]).*1 = true →
  (t, p) ∈ init → t < tn.
Proof.
  intros Hinc Hin. apply list_elem_of_lookup in Hin as [i Hi].
  pose proof (lookup_lt_Some _ _ _ Hi) as Hlen.
  eapply (strictly_increasing_lookup _ i (length init)); [exact Hinc|done|..].
  - rewrite list_lookup_fmap, lookup_app_l, Hi by done. done.
  - rewrite list_lookup_fmap, lookup_app_r, Nat.sub_diag by done. done.
Qed.

Lemma newer_than_none l entries :
  (∀ t p, (t, p) ∈ entries → t ≤ l) → newer_than l entries = [].
Proof.
  induction entries as [|[t p] entries IH]; intros H; [done|].
  rewrite newer_than_cons, bool_decide_eq_false_2.
  - apply IH. intros t' p' Hin. apply (H t' p'), elem_of_cons. by right.
  - assert (t ≤ l); [|lia]. apply (H t p), elem_of_cons. by left.
Qed.

Lemma price_at_none l entries :
  (∀ t p, (t, p) ∈ entries → t ≠ l) → price_at l entries = None.
Proof.
  induction entries as [|[t p] entries IH]; intros H; [done|].
  rewrite price_at_cons, bool_decide_eq_false_2.
  - apply IH. intros t' p' Hin. apply (H t' p'), elem_of_cons. by right.
  - apply (H t p), elem_of_cons. by left.
Qed.

Lemma newer_than_snoc l entries t p :
  l < t → newer_than l (entries ++ [(t, p)]) = newer_than l entries ++ [(t, p)].
Proof.
  intros Hlt. unfold newer_than.
  by rewrite filter_app, filter_cons_True, filter_nil by done.
Qed.

Lemma price_at_snoc l entries p :
  (∀ t' p', (t', p') ∈ entries → t' ≠ l) →
  price_at l (entries ++ [(l, p)]) = Some p.
Proof.
  induction entries as [|[t q] entries IH]; intros H.
  - cbn. by rewrite price_at_cons, bool_decide_eq_true_2.
  - cbn. rewrite price_at_cons, bool_decide_eq_false_2.
    + apply IH. intros t' p' Hin. apply (H t' p'), elem_of_cons. by right.
    + apply (H t q), elem_of_cons. by left.
Qed.

(** After the insert part of [add_prices], no entry of the batch is newer
    than the last stored timestamp, and an entry at that timestamp has the
    stored price. *)
Lemma batch_absorbed d l entries :
  series_wf d → last (ts d) = Some l →
  entries ≠ [] → strictly_increasing entries.*1 = true →
  let target :=
    Series (ts d ++ (newer_than l entries).*1)
           (match price_at l entries with
            | Some p => <[(length (price d) - 1)%nat := p]> (price d)
            | None => price d
            end ++ (newer_than l entries).*2) in
  ∃ L q, last (ts target) = Some L ∧ last (price target) = Some q ∧
         (∀ t p, (t, p) ∈ entries → t < L ∨ (t = L ∧ p = q)) ∧
         (∀ tn pn, last entries = Some (tn, pn) → l ≤ tn → L = tn ∧ q = pn).
Proof.
  intros Hwf Hlast Hne Hinc.
  destruct entries as [|[tn pn] init _] using rev_ind; [done|]. clear Hne.
  assert (∀ tn' pn', last (init ++ [(tn, pn)]) = Some (tn', pn') →
                     tn' = tn ∧ pn' = pn) as Hfinal.
  { intros tn' pn' H'. rewrite last_snoc in H'. by simplify_eq. }
  pose proof (strict_batch_last init tn pn) as Hinit.
  assert (∃ q0, last (price d) = Some q0) as [q0 Hq0].
  { unfold series_wf in Hwf. rewrite !last_lookup, <-Hwf in *.
    apply lookup_lt_is_Some_2. apply lookup_lt_Some in Hlast. lia. }
  assert (price d ≠ []) as Hpne by (by intros Hp; rewrite Hp in Hq0).
  assert (∀ p', last (<[(length (price d) - 1)%nat := p']> (price d)) = Some p')
    as Hset.
  { intros p'. rewrite last_lookup, length_insert.
    replace (Init.Nat.pred (length (price d))) with (length (price d) - 1)%nat by lia.
    apply list_lookup_insert_eq. destruct (price d); [done|cbn; lia]. }
  assert (∀ t p, (t, p) ∈ init ++ [(tn, pn)] →
                 t < tn ∨ (t = tn ∧ p = pn)) as Hcases.
  { intros t p Hin. apply elem_of_app in Hin as [Hin|Hin].
    - left. by eapply Hinit.
    - apply list_elem_of_singleton in Hin. right. by simplify_eq. }
  intros target. subst target.
  destruct (Z.lt_trichotomy tn l) as [Hlt|[Heq|Hgt]].
  - (* the whole batch is older than [l] *)
    rewrite newer_than_none, price_at_none.
    + exists l, q0. cbn. rewrite !app_nil_r. split_and!; [done..| |].
      * intros t p Hin. destruct (Hcases t p Hin); left; lia.
      * intros tn' pn' H' Hle. destruct (Hfinal _ _ H'). lia.
    + intros t p Hin. destruct (Hcases t p Hin); lia.
    + intros t p Hin. destruct (Hcases t p Hin); lia.
  - (* the batch ends at [l] *)
    subst tn. rewrite newer_than_none, price_at_snoc.
    + exists l, pn. cbn. rewrite !app_nil_r.
      split_and!; [done|by apply Hset|exact Hcases|].
      intros tn' pn' H' Hle. destruct (Hfinal _ _ H'). by subst.
    + intros t p Hin. specialize (Hinit t p Hinc Hin). lia.
    + intros t p Hin. destruct (Hcases t p Hin); lia.
  - (* the batch ends after [l]: its last entry is the last one stored *)
    rewrite newer_than_snoc by done.
    exists tn, pn. cbn. rewrite !fmap_app. cbn. rewrite !app_assoc, !last_snoc.
    split_and!; [done|done|exact Hcases|].
    intros tn' pn' H' Hle. by simplify_eq.
Qed.


Lemma insert_absorbs_batch d0 entries :
  series_wf d0 → ascending (ts d0) = true →
  entries ≠ [] → strictly_increasing entries.*1 = true →
  ∃ d1 L q,
    add_prices_to_series entries d0 = drop_old d1 ∧
    ascending (ts d1) = true ∧
    last (ts d1) = Some L ∧ last (price d1) = Some q ∧
    (∀ t p, (t, p) ∈ entries → t < L ∨ (t = L ∧ p = q)) ∧
    (∀ tn pn, last entries = Some (tn, pn) →
              (∀ l, last (ts d0) = Some l → l ≤ tn) → L = tn ∧ q = pn).
Proof.
  intros Hwf Hasc Hne Hinc. destruct (last (ts d0)) as [l|] eqn:Hlast.
  - destruct (add_prices_to_series_strict d0 l entries) as [Heq Htarget];
      [done..|].
    destruct (batch_absorbed d0 l entries) as (L & q & HL & Hq & Habs & Hfin);
      [done..|].
    eexists _, L, q. split_and!; [done..|].
    intros tn pn Hl Hle. apply Hfin; [done|]. by apply Hle.
  - apply last_None in Hlast.
    assert (price d0 = []) as Hp.
    { unfold series_wf in Hwf. rewrite Hlast in Hwf. by destruct (price d0). }
    exists (Series entries.*1 entries.*2).
    destruct entries as [|[tn pn] init _] using rev_ind; [done|].
    exists tn, pn. split_and!.
    + rewrite add_prices_to_series_fast; [by rewrite Hlast, Hp|done|].
      unfold fast_path. by rewrite Hlast.
    + by apply strictly_increasing_ascending.
    + cbn [ts]. rewrite fmap_app. cbn. by rewrite last_snoc.
    + cbn [price]. rewrite fmap_app. cbn. by rewrite last_snoc.
    + intros t p Hin. apply elem_of_app in Hin as [Hin|Hin].
      * left. by eapply strict_batch_last.
      * apply list_elem_of_singleton in Hin. right. by simplify_eq.
    + intros tn' pn' H' _. rewrite last_snoc in H'. by simplify_eq.
Qed.

Lemma add_again_to_series d1 entries L q :
  entries ≠ [] →
  last (ts d1) = Some L → last (price d1) = Some q →
  (∀ t p, (t, p) ∈ entries → t < L ∨ (t = L ∧ p = q)) →
  add_prices_to_series entries d1 = drop_old d1.
Proof.
  intros Hne HL Hq Habs.
  rewrite add_prices_to_series_merge; [|done|].
  - st_unfold. rewrite HL. by rewrite (merge_loop_noop entries d1 L q).
  - unfold fast_path. rewrite HL.
    destruct entries as [|[t0 p0] entries]; [done|]. cbn.
    apply bool_decide_eq_false_2.
    destruct (Habs t0 p0); [apply elem_of_cons; by left|lia|lia].
Qed.

(** X6: adding the same batch twice is the same as adding it once.  For a
    batch with strictly increasing timestamps and an asset that is unknown
    or whose series is sorted ascending, the second call leaves the store
    as the first one left it and has the same outcome. *)
Theorem add_prices_twice s (symbol : Asset) entries :
  (∀ d, data s !! symbol = Some d →
        length (ts d) = length (price d) ∧ ascending (ts d) = true) →
  strictly_increasing entries.*1 = true →
  add_prices symbol entries (add_prices symbol entries s).2
  = add_prices symbol entries s.
Proof.
  intros Hd Hinc. destruct entries as [|e entries]; [done|].
  set (d0 := default new_series (data s !! symbol)).
  assert (series_wf d0 ∧ ascending (ts d0) = true) as [Hwf Hasc].
  { subst d0. destruct (data s !! symbol) as [d|] eqn:Hlook; [by apply Hd|done]. }
  destruct (insert_absorbs_batch d0 (e :: entries))
    as (d1 & L & q & Hfirst & Hasc1 & HL & Hq & Habs & _); [done..|].
  pose proof (drop_old_ascending d1 Hasc1) as Hsame.
  (* the first call *)
  assert (add_prices symbol (e :: entries) s
          = ((drop_old d1).1, Store (<[symbol := d1]> (data s)) (window_days s)))
    as Hcall1.
  { cbn [add_prices]. unfold with_item. fold d0. rewrite Hfirst.
    destruct (drop_old d1) as [r d1']. cbn in *. by subst d1'. }
  rewrite Hcall1. cbn [snd].
  (* the second call *)
  cbn [add_prices]. unfold with_item. cbn [data window_days].
  rewrite lookup_insert_eq. cbn [default from_option id].
  rewrite (add_again_to_series d1 (e :: entries) L q) by done.
  destruct (drop_old d1) as [r d1']. cbn in *. subst d1'.
  by rewrite insert_insert_eq.
Qed.


(** ** [get_last_price] *)

(** For an asset with data, [get_last_price] is the last element of each
    of the two lists. *)
Lemma get_last_price_known s (asset : Asset) d t p :
  data s !! asset = Some d →
  last (ts d) = Some t → last (price d) = Some p →
  get_last_price asset s = (Ok (Some (t, p)), s).
Proof.
  intros Hd Ht Hp. unfold get_last_price, data_get, getlast. st_unfold.
  rewrite Hd. destruct (ts d) as [|t0 l] eqn:Hts; [done|].
  by rewrite Ht, Hp.
Qed.

(** X7: write, then read.  After [add_prices] with a batch of strictly
    increasing timestamps whose final entry is not older than the last
    stored timestamp, [get_last_price] returns that final entry, whether
    [add_prices] returned or raised. *)
Theorem get_last_price_after_add_prices s (symbol : Asset) entries tn pn :
  (∀ d, data s !! symbol = Some d →
        length (ts d) = length (price d) ∧ ascending (ts d) = true) →
  strictly_increasing entries.*1 = true →
  last entries = Some (tn, pn) →
  (∀ d l, data s !! symbol = Some d → last (ts d) = Some l → l ≤ tn) →
  (get_last_price symbol (add_prices symbol entries s).2).1
  = Ok (Some (tn, pn)).
Proof.
  intros Hd Hinc Hfinal Hle. destruct entries as [|e entries]; [done|].
  set (d0 := default new_series (data s !! symbol)).
  assert (series_wf d0 ∧ ascending (ts d0) = true) as [Hwf Hasc].
  { subst d0. destruct (data s !! symbol) as [d|] eqn:Hlook; [by apply Hd|done]. }
  destruct (insert_absorbs_batch d0 (e :: entries))
    as (d1 & L & q & Hfirst & Hasc1 & HL & Hq & _ & Hfin); [done..|].
  destruct (Hfin tn pn Hfinal) as [-> ->].
  { subst d0. intros l Hl.
    destruct (data s !! symbol) as [d|] eqn:Hlook; [by eapply Hle|done]. }
  destruct (add_prices_data s symbol e entries) as [Hdata _].
  fold d0 in Hdata. rewrite Hfirst, (drop_old_ascending d1 Hasc1) in Hdata.
  rewrite (get_last_price_known _ symbol d1 tn pn); [done| |done..].
  rewrite Hdata. apply lookup_insert_eq.
Qed.

(** X8: on a series sorted ascending, the entry [get_last_price] returns
    carries the greatest stored timestamp. *)
Theorem get_last_price_newest s (asset : Asset) d :
  data s !! asset = Some d →
  ts d ≠ [] →
  length (ts d) = length (price d) →
  ascending (ts d) = true →
  ∃ t p, get_last_price asset s = (Ok (Some (t, p)), s) ∧
         ts d !! (length (ts d) - 1)%nat = Some t ∧
         price d !! (length (ts d) - 1)%nat = Some p ∧
         ∀ t', t' ∈ ts d → t' ≤ t.
Proof.
  intros Hd Hne Hlen Hasc.
  assert (0 < length (ts d))%nat as Hpos by (destruct (ts d); [done|cbn; lia]).
  destruct (lookup_lt_is_Some_2 (ts d) (length (ts d) - 1)) as [t Ht]; [lia|].
  destruct (lookup_lt_is_Some_2 (price d) (length (ts d) - 1)) as [p Hp]; [lia|].
  exists t, p. split_and!; [|done..|].
  - apply (get_last_price_known _ _ d); [done|..]; rewrite last_lookup.
    + by replace (Init.Nat.pred (length (ts d))) with (length (ts d) - 1)%nat by lia.
    + by replace (Init.Nat.pred (length (price d))) with (length (ts d) - 1)%nat by lia.
  - intros t' Ht'. apply list_elem_of_lookup in Ht' as [j Hj].
    pose proof (lookup_lt_Some _ _ _ Hj).
    eapply (ascending_lookup (ts d) j (length (ts d) - 1)); [done|lia|done..].
Qed.

(** ** [get_closest_price] *)

(** In a strictly increasing list a value sits at one index only. *)
Lemma strictly_increasing_inj l i j t :
  strictly_increasing l = true →
  l !! i = Some t → l !! j = Some t → i = j.
Proof.
  intros Hl Hi Hj. destruct (Nat.lt_trichotomy i j) as [Hlt|[Heq|Hgt]]; [|done|].
  - pose proof (strictly_increasing_lookup l i j t t Hl Hlt Hi Hj). lia.
  - pose proof (strictly_increasing_lookup l j i t t Hl Hgt Hj Hi). lia.
Qed.

(** X9: exact hits.  On a series with strictly increasing timestamps,
    asking [get_closest_price] for a stored timestamp returns the entry
    stored at that timestamp. *)
Theorem get_closest_price_exact s (asset : Asset) d k t p :
  data s !! asset = Some d →
  length (ts d) = length (price d) →
  strictly_increasing (ts d) = true →
  ts d !! k = Some t → price d !! k = Some p →
  get_closest_price asset t s = (Ok (Some (t, p)), s).
Proof.
  intros Hd Hlen Hinc Ht Hp.
  assert (ts d ≠ []) as Hne by (intros H; by rewrite H in Ht).
  destruct (closest_spec (ts d) (price d) t Hne Hlen
              (strictly_increasing_ascending _ Hinc))
    as (i & t' & p' & Hc & Ht' & Hp' & Hmin & _).
  assert (t' = t) as ->.
  { specialize (Hmin t (list_elem_of_lookup_2 _ _ _ Ht)). lia. }
  assert (i = k) as -> by (by eapply strictly_increasing_inj).
  assert (p' = p) as -> by congruence.
  unfold get_closest_price, data_get. st_unfold. rewrite Hd.
  destruct (ts d); [done|]. by rewrite Hc.
Qed.

(** X10: clamping.  On a series with strictly increasing timestamps, a
    query time at or before the first timestamp gets the first entry, and
    a query time at or after the last timestamp gets what
    [get_last_price] returns. *)
Theorem get_closest_price_clamps s (asset : Asset) d time :
  data s !! asset = Some d →
  ts d ≠ [] →
  length (ts d) = length (price d) →
  strictly_increasing (ts d) = true →
  (∀ t0 p0, ts d !! 0%nat = Some t0 → price d !! 0%nat = Some p0 →
            time ≤ t0 →
            get_closest_price asset time s = (Ok (Some (t0, p0)), s)) ∧
  (∀ tl, last (ts d) = Some tl → tl ≤ time →
         get_closest_price asset time s = get_last_price asset s).
Proof.
  intros Hd Hne Hlen Hinc.
  pose proof (strictly_increasing_ascending _ Hinc) as Hasc.
  destruct (closest_spec (ts d) (price d) time Hne Hlen Hasc)
    as (i & t & p & Hc & Ht & Hp & Hmin & Htie).
  assert (get_closest_price asset time s = (Ok (Some (t, p)), s)) as ->.
  { unfold get_closest_price, data_get. st_unfold. rewrite Hd.
    destruct (ts d); [done|]. by rewrite Hc. }
  split.
  - intros t0 p0 H0 Hp0 Hle.
    assert (t = t0) as ->.
    { pose proof (Hmin t0 (list_elem_of_lookup_2 _ _ _ H0)).
      pose proof (ascending_lookup (ts d) 0 i t0 t Hasc ltac:(lia) H0 Ht). lia. }
    assert (i = 0%nat) as -> by (by eapply strictly_increasing_inj).
    by simplify_eq.
  - intros tl Hlast Hle. rewrite last_lookup in Hlast.
    assert (t = tl) as ->.
    { pose proof (Hmin tl (list_elem_of_lookup_2 _ _ _ Hlast)).
      pose proof (lookup_lt_Some _ _ _ Ht).
      assert (t ≤ tl); [|lia].
      eapply (ascending_lookup (ts d) i (Init.Nat.pred (length (ts d))));
        [done|lia|done..]. }
    assert (i = Init.Nat.pred (length (ts d))) as ->
      by (by eapply strictly_increasing_inj).
    symmetry. apply (get_last_price_known _ _ d); [done|..]; rewrite last_lookup.
    + done.
    + by rewrite <-Hlen.
Qed.


(** ** [get_prices]: what the resampling keeps *)

Lemma zip_lookup_Some (tss : list Z) (prices : list float) a t p :
  tss !! a = Some t → prices !! a = Some p →
  zip tss prices !! a = Some (t, p).
Proof. intros Ht Hp. apply lookup_zip_with_Some. eauto. Qed.

(** The loop over the indices from [a] to the end adds to [result] a
    sublist of the stored entries from index [a] on. *)
Lemma resample_loop_sublist tss (prices : list float) resolution k :
  length tss = length prices →
  ∀ a target_next result out,
    (a + k = length tss)%nat →
    resample_loop tss prices resolution (seq a k) target_next result = Ok out →
    ∃ more, out = result ++ more ∧
            more `sublist_of` drop a (zip tss prices).
Proof.
  intros Hlen. induction k as [|k IH]; intros a target_next result out Ha Hloop.
  { cbn in Hloop. simplify_eq. exists []. rewrite app_nil_r.
    split; [done|]. apply sublist_nil_l. }
  cbn [seq resample_loop] in Hloop. unfold getitem in Hloop.
  destruct (lookup_lt_is_Some_2 tss a) as [t Ht]; [lia|].
  destruct (lookup_lt_is_Some_2 prices a) as [p Hp]; [lia|].
  rewrite Ht in Hloop.
  rewrite (drop_S _ (t, p)) by (by apply zip_lookup_Some).
  case_bool_decide.
  - rewrite Hp in Hloop.
    assert (S a + k = length tss)%nat as Hk by lia.
    destruct (IH (S a) _ _ _ Hk Hloop) as (more & -> & Hsub).
    exists ((t, p) :: more). split; [by rewrite <-app_assoc|].
    by apply sublist_skip.
  - assert (S a + k = length tss)%nat as Hk by lia.
    destruct (IH (S a) _ _ _ Hk Hloop) as (more & -> & Hsub).
    exists more. split; [done|]. by apply sublist_cons.
Qed.

(** When the stored timestamps are already at least [resolution] apart,
    the loop keeps every entry. *)
Lemma resample_loop_all tss (prices : list float) resolution k :
  length tss = length prices →
  (∀ j t1 t2, tss !! j = Some t1 → tss !! S j = Some t2 →
              resolution ≤ t2 - t1) →
  ∀ a tprev result,
    (S a + k = length tss)%nat →
    tss !! a = Some tprev →
    resample_loop tss prices resolution (seq (S a) k) (tprev + resolution) result
    = Ok (result ++ drop (S a) (zip tss prices)).
Proof.
  intros Hlen Hgap. induction k as [|k IH]; intros a tprev result Ha Hprev.
  { cbn. rewrite drop_ge, app_nil_r; [done|].
    rewrite length_zip_with. lia. }
  cbn [seq resample_loop]. unfold getitem.
  destruct (lookup_lt_is_Some_2 tss (S a)) as [t Ht]; [lia|].
  destruct (lookup_lt_is_Some_2 prices (S a)) as [p Hp]; [lia|].
  rewrite Ht, Hp.
  rewrite (drop_S _ (t, p) (S a)) by (by apply zip_lookup_Some).
  rewrite bool_decide_eq_true_2.
  - rewrite (IH (S a) t) by (done || lia). by rewrite <-app_assoc.
  - specialize (Hgap a tprev t Hprev Ht). lia.
Qed.

(** What [get_prices] returns for an asset is a sublist of the stored
    entries from the start index on. *)
Lemma get_prices_sublist_of s (asset : Asset) d days resolution out i :
  data s !! asset = Some d →
  length (ts d) = length (price d) →
  (get_prices asset days resolution s).1 = Ok out →
  start_index (ts d) days = Ok i →
  out `sublist_of` drop i (zip (ts d) (price d)).
Proof.
  intros Hd Hlen Hout Hi.
  destruct (decide (ts d = [])) as [Hempty|Hne].
  { revert Hout. unfold get_prices, data_get. st_unfold. rewrite Hd, Hempty.
    cbn. intros [= <-]. apply sublist_nil_l. }
  rewrite (get_prices_known _ _ _ _ _ Hd Hne) in Hout. cbn in Hout.
  unfold resample in Hout. rewrite Hi in Hout.
  case_bool_decide as Hn.
  { simplify_eq. apply sublist_nil_l. }
  unfold getitem in Hout.
  destruct (lookup_lt_is_Some_2 (ts d) i) as [t Ht]; [lia|].
  destruct (lookup_lt_is_Some_2 (price d) i) as [p Hp]; [lia|].
  rewrite Ht, Hp in Hout.
  replace (i + 1)%nat with (S i) in Hout by lia.
  assert (S i + (length (ts d) - S i) = length (ts d))%nat as Hk by lia.
  destruct (resample_loop_sublist _ _ _ _ Hlen _ _ _ _ Hk Hout)
    as (more & -> & Hsub).
  rewrite (drop_S _ (t, p) i) by (by apply zip_lookup_Some).
  by apply sublist_skip.
Qed.

(** When [get_prices] returns for an asset with data, its start index
    could be computed. *)
Lemma get_prices_Ok_start_index s (asset : Asset) d days resolution out :
  data s !! asset = Some d → ts d ≠ [] →
  (get_prices asset days resolution s).1 = Ok out →
  ∃ i, start_index (ts d) days = Ok i.
Proof.
  intros Hd Hne Hout. rewrite (get_prices_known _ _ _ _ _ Hd Hne) in Hout.
  cbn in Hout. destruct (start_index (ts d) days) as [i|e] eqn:Hi; [eauto|].
  by rewrite (resample_Raise _ _ _ _ _ Hi) in Hout.
Qed.

(** X11: [get_prices] invents nothing and keeps the order: what it
    returns is a sublist of the stored entries from the start index on. *)
Theorem get_prices_sublist s (asset : Asset) d days resolution :
  data s !! asset = Some d →
  length (ts d) = length (price d) →
  ∀ out i,
    (get_prices asset days resolution s).1 = Ok out →
    start_index (ts d) days = Ok i →
    out `sublist_of` drop i (zip (ts d) (price d)).
Proof. intros Hd Hlen out i. by apply get_prices_sublist_of. Qed.

(** X12: no thinning where none is needed.  When consecutive stored
    timestamps are at least [resolution] apart, [get_prices] returns every
    stored entry from the start index on. *)
Theorem get_prices_keeps_spaced s (asset : Asset) d days resolution i :
  data s !! asset = Some d →
  length (ts d) = length (price d) →
  (∀ j t1 t2, ts d !! j = Some t1 → ts d !! S j = Some t2 →
              resolution ≤ t2 - t1) →
  start_index (ts d) days = Ok i →
  get_prices asset days resolution s
  = (Ok (drop i (zip (ts d) (price d))), s).
Proof.
  intros Hd Hlen Hgap Hi.
  destruct (decide (ts d = [])) as [Hempty|Hne].
  { unfold get_prices, data_get. st_unfold. rewrite Hd, Hempty.
    cbn. by rewrite drop_nil. }
  rewrite (get_prices_known _ _ _ _ _ Hd Hne). f_equal.
  unfold resample. rewrite Hi.
  case_bool_decide as Hn.
  { rewrite drop_ge; [done|]. rewrite length_zip_with. lia. }
  unfold getitem.
  destruct (lookup_lt_is_Some_2 (ts d) i) as [t Ht]; [lia|].
  destruct (lookup_lt_is_Some_2 (price d) i) as [p Hp]; [lia|].
  rewrite Ht, Hp. replace (i + 1)%nat with (S i) by lia.
  rewrite (resample_loop_all _ _ _ _ Hlen Hgap i t) by (done || lia).
  by rewrite (drop_S _ (t, p) i) by (by apply zip_lookup_Some).
Qed.

(** X13: the window of [get_prices].  On a series sorted ascending, with
    [days] given and not 0, every returned timestamp lies between the
    cutoff (the last timestamp minus [days] days) and the last timestamp. *)
Theorem get_prices_window s (asset : Asset) d n resolution tl out :
  data s !! asset = Some d →
  length (ts d) = length (price d) →
  ascending (ts d) = true →
  n ≠ 0 →
  last (ts d) = Some tl →
  (get_prices asset (Some n) resolution s).1 = Ok out →
  ∀ t p, (t, p) ∈ out → tl - n * 86400 ≤ t ≤ tl.
Proof.
  intros Hd Hlen Hasc Hn Hlast Hout t p Hin.
  assert (ts d ≠ []) as Hne by (intros H; by rewrite H in Hlast).
  destruct (Datetime.days_before tl n) as [cutoff|e] eqn:Hc.
  2:{ rewrite (get_prices_known _ _ _ _ _ Hd Hne) in Hout. cbn in Hout.
      unfold resample, start_index, getlast in Hout.
      rewrite bool_decide_eq_true_2, Hlast, Hc in Hout by done. done. }
  pose proof (start_index_days (ts d) n tl cutoff Hn Hlast Hc) as Hi.
  pose proof (get_prices_sublist_of s asset d (Some n) resolution
                out _ Hd Hlen Hout Hi) as Hsub.
  apply days_before_Ok in Hc. unfold Datetime.SECONDS_PER_DAY in Hc. subst cutoff.
  pose proof (elem_of_sublist _ _ _ Hin Hsub) as Hel.
  apply list_elem_of_lookup in Hel as [j Hj].
  rewrite lookup_drop in Hj. apply lookup_zip_with_Some in Hj
    as (t' & p' & [= <- <-] & Ht & Hp).
  destruct (bisect_left_spec (ts d) (tl - n * 86400) Hasc) as (_ & _ & Hfrom).
  split.
  - eapply (Hfrom _ t); [|done]. lia.
  - rewrite last_lookup in Hlast. pose proof (lookup_lt_Some _ _ _ Ht).
    eapply (ascending_lookup (ts d) _ (Init.Nat.pred (length (ts d))));
      [done| |done..]. lia.
Qed.


(** ** [add_bulk] *)

Lemma add_bulk_app (items1 items2 : list (Asset * list (PriceEntry float))) s :
  add_bulk (items1 ++ items2) s = (add_bulk items1;; add_bulk items2) s.
Proof.
  revert s. induction items1 as [|[symbol entries] items1 IH]; intros s.
  { done. }
  cbn [app add_bulk]. st_unfold.
  destruct (add_prices symbol entries s) as [[[]|e] s1]; [|done].
  apply IH.
Qed.

(** X14: [add_bulk] touches the assets it is given only: the series of any
    other asset and [window_days] are unchanged, whatever happens. *)
Theorem add_bulk_frame (items : list (Asset * list (PriceEntry float))) s a :
  a ∉ items.*1 →
  data (add_bulk items s).2 !! a = data s !! a ∧
  window_days (add_bulk items s).2 = window_days s.
Proof.
  revert s. induction items as [|[symbol entries] items IH]; intros s Ha.
  { done. }
  cbn in Ha. apply not_elem_of_cons in Ha as [Hne Ha].
  cbn [add_bulk]. st_unfold.
  destruct (add_prices_other s symbol entries) as [Hframe Hwd].
  destruct (add_prices symbol entries s) as [[[]|e] s1]; cbn in *.
  - destruct (IH s1 Ha) as [-> ->]. split; [by apply Hframe|done].
  - split; [by apply Hframe|done].
Qed.

(** X15: [add_bulk] is not atomic.  When [add_prices] raises for one
    asset, [add_bulk] raises the same exception; the assets before it have
    been written, that asset holds what [add_prices] left, and the assets
    after it are not attempted. *)
Theorem add_bulk_stops_at_raise
    (before after : list (Asset * list (PriceEntry float)))
    (symbol : Asset) entries s s1 s2 e :
  add_bulk before s = (Ok (), s1) →
  add_prices symbol entries s1 = (Raise e, s2) →
  add_bulk (before ++ (symbol, entries) :: after) s = (Raise e, s2).
Proof.
  intros Hbefore Hraise. rewrite add_bulk_app. st_unfold.
  rewrite Hbefore. cbn [add_bulk]. st_unfold. by rewrite Hraise.
Qed.

(** X16: [add_bulk] under the caller's contract.  From a store built by
    returning calls with sorted batches, an [add_bulk] that returns and
    whose batches are all sorted ascending leads to such a store again: so
    every series in it has parallel lists and ascending timestamps. *)
Theorem add_bulk_reachable (items : list (Asset * list (PriceEntry float))) s s' :
  reachable s →
  Forall (λ item, ascending item.2.*1 = true) items →
  add_bulk items s = (Ok (), s') →
  reachable s' ∧ ∀ a d, data s' !! a = Some d → series_sorted d.
Proof.
  intros Hs Hitems Hbulk.
  assert (reachable s') as Hs'; [|split; [done|by apply reachable_sorted]].
  revert s Hs Hbulk. induction Hitems as [|[symbol entries] items Hasc _ IH];
    intros s Hs Hbulk.
  { cbn in Hbulk. st_unfold. by simplify_eq. }
  cbn [add_bulk] in Hbulk. st_unfold.
  destruct (add_prices symbol entries s) as [[[]|e] s1] eqn:Hadd; [|done].
  apply (IH s1); [|done]. by eapply reachable_add_prices.
Qed.

End More.

(** ** Predictive distributions *)

Section DistributionProperties.

Context {float : Type}.
Implicit Types (v dist density : pyval float) (items : list (string * pyval float)).
Implicit Types (components : list (pyval float)).

(** *** The recursion ends *)

Lemma depth_elem components v :
  v ∈ components → (depth v < depth (PList components))%nat.
Proof.
  cbn [depth]. induction components as [|x l IH]; intros Hin.
  { by apply elem_of_nil in Hin. }
  cbn [foldr]. apply elem_of_cons in Hin as [->|Hin]; [lia|].
  specialize (IH Hin). lia.
Qed.

Lemma depth_dict_get key items v :
  dict_get key items = Some v → (depth v < depth (PDict items))%nat.
Proof.
  cbn [depth]. induction items as [|[k x] items IH]; intros Hget; [done|].
  cbn [dict_get] in Hget. cbn [foldr snd].
  case_bool_decide; [simplify_eq; lia|]. specialize (IH Hget). lia.
Qed.

(** The density the loop takes from a component is nested less deeply than
    the component; the default [{}] is as flat as a dict can be. *)
Lemma depth_density citems :
  (depth (default (PDict []) (dict_get "density" citems))
   ≤ depth (PDict (float:=float) citems))%nat.
Proof.
  destruct (dict_get "density" citems) as [v|] eqn:Hget; cbn [default from_option id].
  - apply depth_dict_get in Hget. lia.
  - cbn. lia.
Qed.

(** What [iterate] yields is nested less deeply than what it iterates. *)
Lemma depth_iterate v components comp :
  iterate v = Returns components → comp ∈ components →
  (depth comp < S (depth v))%nat.
Proof.
  destruct v as [| | |str|l|items]; intros Hit Hin; try done; cbn in Hit; simplify_eq.
  - assert (depth comp = 0%nat) as ->; [|lia].
    induction str as [|c str IH]; cbn in Hin.
    + by apply elem_of_nil in Hin.
    + apply elem_of_cons in Hin as [->|Hin]; [done|by apply IH].
  - apply depth_elem in Hin. lia.
  - apply list_elem_of_fmap in Hin as (k & -> & _). cbn. lia.
Qed.

(** So the densities the loop recurses on are nested less deeply than the
    distribution that holds them. *)
Lemma depth_component items components citems :
  iterate (default (PList []) (dict_get "components" items)) = Returns components →
  PDict citems ∈ components →
  (depth (default (PDict []) (dict_get "density" citems))
   < depth (PDict items))%nat.
Proof.
  intros Hit Hin. pose proof (depth_density citems) as Hdens.
  destruct (dict_get "components" items) as [v|] eqn:Hget;
    cbn [default from_option id] in Hit.
  - pose proof (depth_iterate _ _ _ Hit Hin).
    apply depth_dict_get in Hget. lia.
  - cbn in Hit. simplify_eq. by apply elem_of_nil in Hin.
Qed.

Lemma count_loop_ext (f g : pyval float → option (answer Z)) components total :
  (∀ citems, PDict citems ∈ components →
     f (default (PDict []) (dict_get "density" citems))
     = g (default (PDict []) (dict_get "density" citems))) →
  count_loop f components total = count_loop g components total.
Proof.
  revert total. induction components as [|comp rest IH]; intros total Hfg; [done|].
  cbn [count_loop]. destruct comp as [| | | | |citems]; try done.
  rewrite <-(Hfg citems) by (apply elem_of_cons; by left).
  destruct (f _) as [[n|e]|]; try done.
  apply IH. intros c Hc. apply Hfg, elem_of_cons. by right.
Qed.

(** With the fuel its depth calls for, the recursion on a value ends, and
    more fuel does not change the result. *)
Lemma count_fuel_enough fuel dist :
  (depth dist < fuel)%nat →
  count_fuel fuel dist = count_fuel (S (depth dist)) dist ∧
  is_Some (count_fuel fuel dist).
Proof.
  revert dist. induction (lt_wf fuel) as [fuel _ IH]. intros dist Hd.
  destruct fuel as [|fuel]; [lia|].
  destruct dist as [| | | | |items]; try (cbn; eauto; fail).
  cbn [count_fuel]. destruct (is_mixture items); [|by eauto].
  destruct (iterate _) as [components|e] eqn:Hit; [|by eauto].
  assert (∀ citems, PDict citems ∈ components →
            (depth (default (PDict []) (dict_get "density" citems))
             < depth (PDict items))%nat) as Hdeep.
  { intros citems Hin. by eapply depth_component. }
  assert (∀ citems, PDict citems ∈ components →
            count_fuel fuel (default (PDict []) (dict_get "density" citems))
            = count_fuel (depth (PDict items))
                (default (PDict []) (dict_get "density" citems))
            ∧ is_Some (count_fuel fuel
                         (default (PDict []) (dict_get "density" citems))))
    as Hrec.
  { intros citems Hin. specialize (Hdeep citems Hin).
    set (density := default (PDict []) (dict_get "density" citems)) in *.
    assert (depth density < fuel)%nat as Hfuel by lia.
    destruct (IH fuel (Nat.lt_succ_diag_r _) density Hfuel) as [E1 Hsome].
    destruct (IH (depth (PDict items)) Hd density Hdeep) as [E2 _].
    split; [by rewrite E1, E2|done]. }
  split.
  - apply count_loop_ext. intros citems Hin. by apply Hrec.
  - clear Hit Hdeep. generalize 0. induction components as [|comp rest IHc];
      intros total; [by eauto|].
    cbn [count_loop]. destruct comp as [| | | | |citems]; try by eauto.
    destruct (Hrec citems) as [_ [r Hr]]; [apply elem_of_cons; by left|].
    rewrite Hr. destruct r as [n|e]; [|by eauto].
    apply IHc. intros c Hc. apply Hrec, elem_of_cons. by right.
Qed.

(** [count_distribution_components] by its own recursive calls: the
    equation the Python function is defined by. *)
Lemma count_distribution_components_eq dist :
  Some (count_distribution_components dist)
  = match dist with
    | PDict items =>
        if is_mixture items then
          match iterate (default (PList []) (dict_get "components" items)) with
          | Returns components =>
              count_loop (λ v, Some (count_distribution_components v))
                components 0
          | Raises e => Some (Raises e)
          end
        else Some (Returns 1)
    | _ => Some (Raises AttributeError)
    end.
Proof.
  unfold count_distribution_components at 1.
  destruct (count_fuel_enough (S (depth dist)) dist) as [_ [r Hr]]; [lia|].
  rewrite Hr. rewrite <-Hr. clear r Hr.
  destruct dist as [| | | | |items]; try done.
  cbn [count_fuel]. destruct (is_mixture items); [|done].
  destruct (iterate _) as [components|e] eqn:Hit; [|done].
  apply count_loop_ext. intros citems Hin.
  assert (depth (default (PDict []) (dict_get "density" citems))
          < depth (PDict items))%nat as Hdeep.
  { by eapply depth_component. }
  destruct (count_fuel_enough _ _ Hdeep) as [-> [r Hr]].
  unfold count_distribution_components. by rewrite Hr.
Qed.


(** *** Counting *)

Local Notation "'count_rec'" :=
  (λ v : pyval _, Some (count_distribution_components v)) (only parsing).

(** The loop adds to the total it is given. *)
Lemma count_loop_shift (f : pyval float → option (answer Z)) components total :
  count_loop f components total
  = match count_loop f components 0 with
    | Some (Returns n) => Some (Returns (total + n))
    | r => r
    end.
Proof.
  revert total. induction components as [|comp rest IH]; intros total.
  { cbn. by rewrite Z.add_0_r. }
  cbn [count_loop]. destruct comp as [| | | | |citems]; try done.
  destruct (f _) as [[n|e]|]; try done.
  rewrite (IH (total + n)), (IH (0 + n)).
  destruct (count_loop f rest 0) as [[m|e]|]; try done.
  do 2 f_equal. lia.
Qed.

Lemma count_loop_app (f : pyval float → option (answer Z)) l1 l2 total :
  count_loop f (l1 ++ l2) total
  = match count_loop f l1 total with
    | Some (Returns t1) => count_loop f l2 t1
    | r => r
    end.
Proof.
  revert total. induction l1 as [|comp rest IH]; intros total; [done|].
  cbn [app count_loop]. destruct comp as [| | | | |citems]; try done.
  destruct (f _) as [[n|e]|]; try done.
Qed.

(** The count of a mixture with a list of components, by the loop. *)
Lemma count_mixture components :
  Some (count_distribution_components (mixture components))
  = count_loop count_rec components 0.
Proof.
  rewrite count_distribution_components_eq. unfold mixture.
  assert (is_mixture (float:=float)
            [("type"%string, PStr "mixture");
             ("components"%string, PList components)] = true) as ->
    by reflexivity.
  reflexivity.
Qed.

(** X17: wrapping a distribution in a mixture of one component does not
    change the outcome of [count_distribution_components]: the same count,
    or the same exception. *)
Theorem count_single_component density weight :
  count_distribution_components (mixture [component density weight])
  = count_distribution_components density.
Proof.
  apply (inj Some). rewrite count_mixture. cbn.
  rewrite (bool_decide_eq_true_2 ("density"%string = "density"%string)) by done.
  cbn.
  destruct (count_distribution_components density) as [n|e]; [|done].
  by rewrite Z.add_0_l.
Qed.

(** X18: the count of a mixture is the sum over its components: joining
    the component lists of two mixtures adds their counts. *)
Theorem count_mixture_app (l1 l2 : list (pyval float)) n1 n2 :
  count_distribution_components (mixture l1) = Returns n1 →
  count_distribution_components (mixture l2) = Returns n2 →
  count_distribution_components (mixture (l1 ++ l2)) = Returns (n1 + n2).
Proof.
  intros H1 H2. apply (inj Some).
  rewrite (count_mixture (l1 ++ l2)), count_loop_app.
  rewrite <-(count_mixture l1), H1, count_loop_shift.
  by rewrite <-(count_mixture l2), H2.
Qed.

(** No count is negative. *)
Lemma count_loop_ge (f : pyval float → option (answer Z)) components total n :
  (∀ v k, f v = Some (Returns k) → 0 ≤ k) →
  count_loop f components total = Some (Returns n) → total ≤ n.
Proof.
  intros Hf. revert total. induction components as [|comp rest IH]; intros total.
  { cbn. intros [= <-]. lia. }
  cbn [count_loop]. destruct comp as [| | | | |citems]; try done.
  destruct (f _) as [[k|e]|] eqn:Hk; try done.
  intros Hrest. specialize (IH _ Hrest). specialize (Hf _ _ Hk). lia.
Qed.

Lemma count_fuel_nonneg fuel dist n :
  count_fuel fuel dist = Some (Returns n) → 0 ≤ n.
Proof.
  revert dist n. induction fuel as [|fuel IH]; intros dist n; [done|].
  cbn [count_fuel]. destruct dist as [| | | | |items]; try done.
  destruct (is_mixture items); [|intros [= <-]; lia].
  destruct (iterate _) as [components|e]; [|done].
  by apply count_loop_ge.
Qed.

Lemma count_nonneg dist n :
  count_distribution_components dist = Returns n → 0 ≤ n.
Proof.
  unfold count_distribution_components.
  destruct (count_fuel _ dist) as [r|] eqn:Hr; [|done].
  intros ->. by eapply count_fuel_nonneg.
Qed.

(** Every component of a mixture that has a count has one itself, no
    greater than the mixture's. *)
Lemma count_loop_member (f : pyval float → option (answer Z))
    components citems total n :
  (∀ v k, f v = Some (Returns k) → 0 ≤ k) →
  count_loop f components total = Some (Returns n) →
  PDict citems ∈ components →
  ∃ k, f (default (PDict []) (dict_get "density" citems)) = Some (Returns k) ∧
       0 ≤ k ≤ n - total.
Proof.
  intros Hf. revert total. induction components as [|comp rest IH];
    intros total Hloop Hin.
  { by apply elem_of_nil in Hin. }
  cbn [count_loop] in Hloop. destruct comp as [| | | | |citems']; try done.
  destruct (f (default (PDict []) (dict_get "density" citems')))
    as [[k|e]|] eqn:Hk; try done.
  pose proof (Hf _ _ Hk). pose proof (count_loop_ge _ _ _ _ Hf Hloop).
  apply elem_of_cons in Hin as [Heq|Hin].
  - simplify_eq. exists k. split; [done|lia].
  - destruct (IH _ Hloop Hin) as (k' & Hk' & Hbound).
    exists k'. split; [done|lia].
Qed.

(** X19: validity is inherited.  When [validate_distribution] accepts a
    mixture, it accepts the density of each of its components. *)
Theorem validate_distribution_component max_components items components citems :
  is_mixture items = true →
  iterate (default (PList []) (dict_get "components" items)) = Returns components →
  PDict citems ∈ components →
  validate_distribution max_components (PDict items) = Returns () →
  validate_distribution max_components
    (default (PDict []) (dict_get "density" citems)) = Returns ().
Proof.
  intros Hmix Hit Hin. unfold validate_distribution.
  pose proof (count_distribution_components_eq (PDict items)) as Heq.
  cbv beta iota in Heq. rewrite Hmix, Hit in Heq.
  destruct (count_distribution_components (PDict items)) as [n|e]; [|done].
  case_bool_decide as Hmax; [done|]. intros _.
  destruct (count_loop_member count_rec components citems 0 n)
    as (k & Hk & Hbound); [|done|done|].
  { intros v k [= Hk]. by eapply count_nonneg. }
  simplify_eq. rewrite Hk. rewrite bool_decide_eq_false_2 by lia. done.
Qed.

(** X20: [validate_distribution] raises [ValueError] exactly when the
    count exceeds the limit; and since a count is never negative, a
    negative limit rejects every distribution that can be counted. *)
Theorem validate_distribution_spec max_components dist n :
  count_distribution_components dist = Returns n →
  0 ≤ n ∧
  (n ≤ max_components → validate_distribution max_components dist = Returns ()) ∧
  (max_components < n →
   validate_distribution max_components dist = Raises (ValueError n)) ∧
  (max_components < 0 →
   validate_distribution max_components dist = Raises (ValueError n)).
Proof.
  intros Hn. pose proof (count_nonneg _ _ Hn) as H0.
  unfold validate_distribution. rewrite Hn. split_and!; [done|..].
  - intros Hle. by rewrite bool_decide_eq_false_2 by lia.
  - intros Hlt. by rewrite bool_decide_eq_true_2 by lia.
  - intros Hlt. by rewrite bool_decide_eq_true_2 by lia.
Qed.


(** *** The count of a well-formed distribution *)

(** X21: the docstring of [count_distribution_components], for every
    well-formed distribution: the function returns the number of leaves of
    the tree, nested mixtures fully expanded, and raises nothing. *)
Theorem count_distribution_components_leaves (t : dist_tree float) :
  well_formed t →
  count_distribution_components (encode t) = Returns (leaves t).
Proof.
  revert t.
  apply (dist_tree_mut float
           (λ t, well_formed t →
                 count_distribution_components (encode t) = Returns (leaves t))
           (λ cs, well_formed_components cs →
                  count_loop (λ v, Some (count_distribution_components v))
                    (encode_components cs) 0
                  = Some (Returns (leaves_components cs)))).
  - intros items Hwf. cbn in Hwf. apply (inj Some).
    rewrite count_distribution_components_eq. cbn [encode]. by rewrite Hwf.
  - intros cs IH Hwf. apply (inj Some). cbn [encode leaves].
    rewrite count_mixture. by apply IH.
  - done.
  - intros density IHd weight rest IHr [Hd Hr].
    cbn [encode_components leaves_components count_loop component].
    cbn [dict_get].
    rewrite (bool_decide_eq_true_2 ("density"%string = "density"%string)) by done.
    cbn [default from_option id]. rewrite (IHd Hd).
    by rewrite count_loop_shift, (IHr Hr).
Qed.

End DistributionProperties.

(** ** The benchmark tracker *)

Section PredictProperties.

Context {float : Type}.
Context (log_return_mean log_return_std : list float → float).
Context (le_zero : float → bool).

Lemma get_prices_store (asset : Asset) days resolution (s : PriceStore float) :
  (get_prices asset days resolution s).2 = s.
Proof.
  unfold get_prices, data_get. st_unfold.
  destruct (data s !! asset) as [d|]; [|done]. by destruct (ts d).
Qed.

(** [predict] by cases on what [get_prices] returned. *)
Lemma predict_eq (asset : Asset) horizon step (s : PriceStore float) :
  predict log_return_mean log_return_std le_zero asset horizon step s
  = (match (get_prices asset (Some 5) step s).1 with
     | Raise e => StoreRaised e
     | Ok pairs =>
         if bool_decide (length pairs < 3)%nat then Predicted []
         else if le_zero (log_return_std pairs.*2) then Predicted []
         else if bool_decide (step = 0) then ZeroDivisionError
         else Predicted
                (gaussian_step (log_return_mean pairs.*2)
                   (log_return_std pairs.*2) step
                 <$> segments (horizon `div` step))
     end, s).
Proof.
  unfold predict. pose proof (get_prices_store asset (Some 5) step s) as Hs.
  destruct (get_prices asset (Some 5) step s) as [[pairs|e] s']; cbn in *; subst s';
    [|done].
  destruct pairs as [|e0 pairs].
  { by rewrite bool_decide_eq_true_2 by (cbn; lia). }
  rewrite length_fmap. unfold PriceEntry in *.
  case_bool_decide; [done|]. destruct (le_zero _); [done|].
  by case_bool_decide.
Qed.

Local Notation "'predict'" :=
  (predict log_return_mean log_return_std le_zero) (only parsing).

(** X22: [predict] makes no forecast from fewer than three stored prices:
    for an unknown asset, or one with fewer than three entries, it returns
    the empty list unless the store raised; the store is unchanged. *)
Theorem predict_short_history (asset : Asset) horizon step (s : PriceStore float) :
  (∀ d, data s !! asset = Some d →
        length (ts d) = length (price d) ∧ (length (ts d) < 3)%nat) →
  (predict asset horizon step s).2 = s ∧
  ((predict asset horizon step s).1 = Predicted [] ∨
   ∃ e, (predict asset horizon step s).1 = StoreRaised e).
Proof.
  intros Hd. rewrite predict_eq. split; [done|]. cbn [fst].
  destruct (get_prices asset (Some 5) step s).1 as [pairs|e] eqn:Hout; [|eauto].
  left. rewrite bool_decide_eq_true_2; [done|].
  destruct (data s !! asset) as [d|] eqn:Hlook.
  - destruct (Hd d eq_refl) as [Hlen Hshort].
    destruct (decide (ts d = [])) as [Hempty|Hne].
    { revert Hout. unfold get_prices, data_get. st_unfold.
      rewrite Hlook, Hempty. cbn. intros [= <-]. cbn. lia. }
    destruct (get_prices_Ok_start_index s asset d _ _ _ Hlook Hne Hout) as [i Hi].
    pose proof (get_prices_sublist_of s asset d _ _ _ _ Hlook Hlen Hout Hi) as Hsub.
    apply sublist_length in Hsub.
    rewrite length_drop, length_zip_with in Hsub. lia.
  - revert Hout. unfold get_prices, data_get. st_unfold. rewrite Hlook.
    cbn. intros [= <-]. cbn. lia.
Qed.

Lemma segments_lookup n k j :
  segments n !! k = Some j → j = Z.of_nat (S k) ∧ 1 ≤ j ≤ n.
Proof.
  unfold segments. rewrite list_lookup_fmap. intros Hk.
  destruct (seq 1 (Z.to_nat n) !! k) as [m|] eqn:Hm; [|done].
  apply lookup_seq in Hm as [-> Hlt]. cbn in Hk. simplify_eq. lia.
Qed.

Lemma gaussian_step_count (mu sigma : float) step k :
  count_distribution_components (gaussian_step mu sigma step k) = Returns 1.
Proof. reflexivity. Qed.

(** X23: the forecasts of [predict].  When it returns a non-empty list,
    there is one distribution per step of the horizon, [horizon // step] of
    them; the one at position [k] is for step [(k + 1) * step], which does
    not exceed the horizon when [step] is positive; and each has exactly
    one component, so [validate_distribution] accepts it for any limit of
    at least 1. *)
Theorem predict_forecasts (asset : Asset) horizon step (s : PriceStore float)
    dists :
  (predict asset horizon step s).1 = Predicted dists →
  dists ≠ [] →
  step ≠ 0 ∧
  length dists = Z.to_nat (horizon `div` step) ∧
  ∀ k dist, dists !! k = Some dist →
    (∃ items, dist = PDict items ∧
              dict_get "step" items = Some (PInt (Z.of_nat (S k) * step))) ∧
    (0 < step → Z.of_nat (S k) * step ≤ horizon) ∧
    count_distribution_components dist = Returns 1 ∧
    (∀ max_components, 1 ≤ max_components →
       validate_distribution max_components dist = Returns ()).
Proof.
  rewrite predict_eq. cbn [fst].
  destruct (get_prices asset (Some 5) step s).1 as [pairs|e]; [|done].
  case_bool_decide; [by intros [= <-]|].
  destruct (le_zero _); [by intros [= <-]|].
  case_bool_decide as Hstep; [done|]. intros [= <-] _.
  split_and!; [done|unfold segments; by rewrite !length_fmap, length_seq|].
  intros k dist Hk. rewrite list_lookup_fmap in Hk.
  destruct (segments (horizon `div` step) !! k) as [j|] eqn:Hj; [|done].
  cbn in Hk. simplify_eq. apply segments_lookup in Hj as [-> Hj].
  split_and!.
  - eexists. split; [reflexivity|]. reflexivity.
  - intros Hpos.
    pose proof (Z.mul_div_le horizon step Hpos). nia.
  - apply gaussian_step_count.
  - intros max_components Hmax. unfold validate_distribution.
    rewrite gaussian_step_count. by rewrite bool_decide_eq_false_2 by lia.
Qed.

End PredictProperties.

(** ** Concrete runs *)

Lemma s_xyz_series : data s_xyz !! X = Some d_xyz.
Proof. reflexivity. Qed.

Lemma s_unsorted_series :
  data s_unsorted !! X = Some (Series [5000000; 0] [3%Q; 4%Q]).
Proof. reflexivity. Qed.

(** The end-to-end scenarios of the specification. *)
Example scenario_1 :
  (get_prices X None 120 s_xyz).1 = Ok [(1000, 100%Q); (1120, 102%Q)].
Proof. reflexivity. Qed.

Example scenario_2 :
  (get_closest_price X 1090 s_xyz).1 = Ok (Some (1060, 101%Q)).
Proof. reflexivity. Qed.

Example scenario_3 :
  let s := (add_prices X [(1000, 105%Q)]
              (add_prices X [(1000, 100%Q)] (init 30)).2).2 in
  data s !! X = Some (Series [1000] [105%Q]) ∧
  (get_last_price X s).1 = Ok (Some (1000, 105%Q)).
Proof. split; reflexivity. Qed.

Example scenario_4 :
  (get_prices UNKNOWN None 60 (init 30 : PriceStore Q)).1 = Ok [] ∧
  (get_last_price UNKNOWN (init 30 : PriceStore Q)).1 = Ok None.
Proof. split; reflexivity. Qed.

(** *** C1 *)

(** C1 (failing input): a batch sorted ascending whose two entries share a
    timestamp, added to an empty store, takes the fast path and is stored
    as it is: the series then holds the timestamp twice and is not
    strictly increasing.  The merge path, given the same batch after the
    first of its entries, keeps one entry. *)
Theorem add_prices_duplicate_in_batch :
  let batch := [(1000, 100%Q); (1000, 105%Q)] in
  ascending batch.*1 = true ∧
  (add_prices X batch (init 30)).1 = Ok () ∧
  data (add_prices X batch (init 30)).2 !! X
    = Some (Series [1000; 1000] [100%Q; 105%Q]) ∧
  strictly_increasing [1000; 1000] = false ∧
  data (add_prices X batch (add_prices X [(1000, 100%Q)] (init 30)).2).2 !! X
    = Some (Series [1000] [105%Q]).
Proof. cbn zeta. split_and!; reflexivity. Qed.

(** *** C2 *)

Lemma pruning_removes_nothing_witness :
  ascending (ts d_xyz) = true ∧
  bisect_left (ts d_xyz) (1000 - 5 * 86400) = 0%nat ∧
  (drop_old d_xyz).2 = d_xyz.
Proof.
  split; [reflexivity|].
  pose proof (pruning_removes_nothing d_xyz eq_refl) as (Hcut & Hdrop & _).
  split; [|exact Hdrop].
  destruct (Hcut 1000 (1000 - 5 * 86400) eq_refl eq_refl) as (_ & _ & H).
  exact H.
Defined.

(** *** C3 *)

Lemma get_closest_price_nearest_witness :
  data s_xyz !! X = Some d_xyz ∧
  ∃ i t p,
    get_closest_price X 1090 s_xyz = (Ok (Some (t, p)), s_xyz) ∧
    ts d_xyz !! i = Some t ∧ price d_xyz !! i = Some p ∧
    (∀ t', t' ∈ ts d_xyz → Z.abs (t - 1090) ≤ Z.abs (t' - 1090)) ∧
    (∀ t', t' ∈ ts d_xyz → Z.abs (t' - 1090) = Z.abs (t - 1090) → t ≤ t').
Proof.
  split; [reflexivity|].
  apply (get_closest_price_nearest s_xyz X d_xyz 1090);
    [reflexivity|discriminate|reflexivity|reflexivity].
Defined.

(** *** C4 *)

Lemma get_prices_spacing_witness :
  data s_xyz !! X = Some d_xyz ∧
  match (get_prices X None 120 s_xyz).1 with
  | Ok out =>
      spaced 120 out ∧
      (∀ i t p,
          start_index (ts d_xyz) None = Ok i →
          ts d_xyz !! i = Some t → price d_xyz !! i = Some p →
          head out = Some (t, p) ∧
          (∀ j t', (i ≤ j)%nat → ts d_xyz !! j = Some t' → t ≤ t'))
  | Raise e => start_index (ts d_xyz) None = Raise e
  end.
Proof.
  split; [reflexivity|].
  apply (get_prices_spacing s_xyz X d_xyz None 120); reflexivity.
Defined.

(** *** C5 *)

Lemma insert_equal_overwrites_last_price_witness :
  data s_xyz !! X = Some d_xyz ∧
  last (ts d_xyz) = Some 1120 ∧
  data (add_prices X [(1120, 105%Q)] s_xyz).2 !! X
    = Some (Series [1000; 1060; 1120] [100%Q; 101%Q; 105%Q]) ∧
  ∃ d', data (add_prices X [(1120, 105%Q)] s_xyz).2 !! X = Some d' ∧
        ts d' = ts d_xyz ∧
        length (price d') = length (price d_xyz) ∧
        (∀ i, (i < length (price d_xyz) - 1)%nat →
              price d' !! i = price d_xyz !! i) ∧
        last (price d') = Some 105%Q ∧
        (∀ a, a ≠ X →
              data (add_prices X [(1120, 105%Q)] s_xyz).2 !! a = data s_xyz !! a).
Proof.
  split_and!; [reflexivity..|].
  apply (insert_equal_overwrites_last_price s_xyz X d_xyz 1120 105%Q);
    reflexivity.
Defined.

(** *** C6 *)

(** C6 (counterexample): the first batch for [X], a single entry whose
    timestamp lies after the year 9999 (an epoch time in milliseconds),
    is stored although the call raises in its pruning step.  The store is
    built with sorted batches and the series of [X] is non-empty; an entry
    older than its last timestamp is skipped and the series stays as it
    is, but the call raises: the date arithmetic of the pruning step
    rejects the oldest stored timestamp. *)
Lemma insert_older_out_of_range_counterexample :
  built s_millis ∧
  data s_millis !! X = Some (Series [1700000000000] [1%Q]) ∧
  last [1700000000000] = Some 1700000000000 ∧
  1699999999000 < 1700000000000 ∧
  data (add_prices X [(1699999999000, 2%Q)] s_millis).2 !! X
    = data s_millis !! X ∧
  (add_prices X [(1699999999000, 2%Q)] s_millis).1 = Raise DateRangeError ∧
  (add_prices X [(1699999999000, 2%Q)] s_millis).1 ≠ Ok ().
Proof.
  split_and!; [|reflexivity..|discriminate].
  apply (built_add_prices _ X [(1700000000000, 1%Q)]); [constructor|reflexivity].
Qed.

Lemma insert_older_leaves_series_witness :
  data s_xyz !! X = Some d_xyz ∧
  last (ts d_xyz) = Some 1120 ∧
  head (ts d_xyz) = Some 1000 ∧
  prunable 1000 ∧
  (add_prices X [(1030, 7%Q)] s_xyz).2 = s_xyz ∧
  add_prices X [(1030, 7%Q)] s_xyz = (Ok (), s_xyz).
Proof.
  assert (prunable 1000) as Hr by (unfold prunable; vm_compute; split; discriminate).
  pose proof (insert_older_leaves_series s_xyz X d_xyz 1120 1030 7%Q
                eq_refl eq_refl eq_refl eq_refl) as [Hst Hok].
  split_and!; [reflexivity..|exact Hr|exact Hst|exact (Hok 1000 eq_refl Hr)].
Defined.

(** *** C7 *)

(** C7 (counterexample): with [days = 0] the cutoff would be the last
    timestamp 1120 itself, whose first entry at or after it is the last
    one; [get_prices] takes 0 for "not given" and starts at index 0. *)
Lemma get_prices_days_zero_counterexample :
  data s_xyz !! X = Some d_xyz ∧
  ascending (ts d_xyz) = true ∧
  last (ts d_xyz) = Some 1120 ∧
  Datetime.days_before 1120 0 = Ok 1120 ∧
  bisect_left (ts d_xyz) 1120 = 2%nat ∧
  ts d_xyz !! 1%nat = Some 1060 ∧ 1060 < 1120 ∧
  ts d_xyz !! 2%nat = Some 1120 ∧ price d_xyz !! 2%nat = Some 102%Q ∧
  (get_prices X (Some 0) 60 s_xyz).1
    = Ok [(1000, 100%Q); (1060, 101%Q); (1120, 102%Q)] ∧
  head [(1000, 100%Q); (1060, 101%Q); (1120, 102%Q)] ≠ Some (1120, 102%Q).
Proof. split_and!; [reflexivity..|discriminate]. Qed.

(** The three parts of the theorem on a series spanning two days: one
    day back from the last timestamp 272800 the cutoff is 186400, which
    is stored at index 1, and the result starts there; without [days] the
    result starts at index 0; and with [days = -1] the cutoff is after
    the last timestamp, the start index is the length of the series and
    the result is empty. *)
Lemma get_prices_start_witness :
  data s_days !! X = Some d_days ∧
  (get_prices X (Some 1) 60 s_days).1 = Ok [(186400, 2%Q); (272800, 3%Q)] ∧
  (186400 = 272800 - 1 * 86400 ∧
   ∃ out i,
     get_prices X (Some 1) 60 s_days = (Ok out, s_days) ∧
     (∀ j t, (j < i)%nat → ts d_days !! j = Some t → t < 186400) ∧
     (∀ t p, ts d_days !! i = Some t → price d_days !! i = Some p →
             186400 ≤ t ∧ head out = Some (t, p)) ∧
     ((length (ts d_days) ≤ i)%nat → out = [])) ∧
  (∃ out t p,
     get_prices X None 60 s_days = (Ok out, s_days) ∧
     ts d_days !! 0%nat = Some t ∧ price d_days !! 0%nat = Some p ∧
     head out = Some (t, p)) ∧
  start_index (ts d_days) (Some (-1)) = Ok 3%nat ∧
  get_prices X (Some (-1)) 60 s_days = (Ok [], s_days).
Proof.
  assert (ts d_days ≠ []) as Hne by discriminate.
  split; [reflexivity|]. split; [reflexivity|].
  split; [|split; [|split; [reflexivity|]]].
  - destruct (get_prices_start s_days X d_days (Some 1) 60
                eq_refl Hne eq_refl eq_refl) as (H & _ & _).
    apply (H 1 272800 186400); [reflexivity|discriminate|reflexivity..].
  - destruct (get_prices_start s_days X d_days None 60
                eq_refl Hne eq_refl eq_refl) as (_ & H & _).
    apply H. left. reflexivity.
  - destruct (get_prices_start s_days X d_days (Some (-1)) 60
                eq_refl Hne eq_refl eq_refl) as (_ & _ & H).
    apply (H 3%nat); [reflexivity|]. cbn. lia.
Defined.

(** *** C8 *)

Lemma reads_without_data_witness :
  data (init 30 : PriceStore Q) !! UNKNOWN = None ∧
  get_prices UNKNOWN None 60 (init 30 : PriceStore Q) = (Ok [], init 30) ∧
  get_last_price UNKNOWN (init 30 : PriceStore Q) = (Ok None, init 30) ∧
  get_closest_price UNKNOWN 0 (init 30 : PriceStore Q) = (Ok None, init 30).
Proof.
  split; [reflexivity|].
  apply (reads_without_data (init 30) UNKNOWN None 60 0). left. reflexivity.
Defined.

(** *** Outside the caller's contract *)

(** The store neither sorts nor checks a batch.  After a batch that is
    not sorted a series is not ascending, and what the theorems above say
    of an ascending series no longer holds of it.  The batch
    [(10, 1); (0, 2)] leaves the series [10; 0], and the binary search of
    [get_closest_price] for time 0 answers the entry at timestamp 10. *)
Lemma get_closest_price_after_unsorted_batch :
  let s := (add_prices X [(10, 1%Q); (0, 2%Q)] (init 30)).2 in
  ascending [10; 0] = false ∧
  data s !! X = Some (Series [10; 0] [1%Q; 2%Q]) ∧
  (get_closest_price X 0 s).1 = Ok (Some (10, 1%Q)).
Proof. cbn zeta. split_and!; reflexivity. Qed.

(** In [s_unsorted] the series of [X] is [5000000; 0]: a single entry at
    or before its last timestamp 0 makes the pruning step, whose cutoff
    is 5000000 - 432000, drop both stored entries. *)
Lemma add_prices_after_unsorted_batch :
  ascending [5000000; 0] = false ∧
  data s_unsorted !! X = Some (Series [5000000; 0] [3%Q; 4%Q]) ∧
  data (add_prices X [(0, 9%Q)] s_unsorted).2 !! X = Some (Series [] []) ∧
  data (add_prices X [(-1, 9%Q)] s_unsorted).2 !! X = Some (Series [] []).
Proof. split_and!; reflexivity. Qed.

(** ** Concrete runs of the further properties *)

Lemma add_prices_first_write_witness :
  data (init 30 : PriceStore Q) !! X = None ∧
  ascending [1000; 1060] = true ∧
  prunable 1000 ∧
  data (add_prices X [(1000, 100%Q); (1060, 101%Q)] (init 30)).2 !! X
    = Some (Series [1000; 1060] [100%Q; 101%Q]) ∧
  (add_prices X [(1000, 100%Q); (1060, 101%Q)] (init 30)).1 = Ok ().
Proof.
  assert (prunable 1000) as Hr by (unfold prunable; vm_compute; split; discriminate).
  destruct (add_prices_first_write (init 30) X [(1000, 100%Q); (1060, 101%Q)] 1000
              (or_introl eq_refl) eq_refl eq_refl) as (Hdata & Hok & _).
  split_and!; [reflexivity|reflexivity|exact Hr|exact Hdata|exact (Hok Hr)].
Defined.

Lemma add_prices_append_only_witness :
  data s_xyz !! X = Some d_xyz ∧
  ascending [1060; 1180] = true ∧
  ∃ d', data (add_prices X [(1060, 7%Q); (1180, 8%Q)] s_xyz).2 !! X = Some d' ∧
        ts d_xyz `prefix_of` ts d' ∧
        (∀ i, (S i < length (ts d_xyz))%nat → price d' !! i = price d_xyz !! i) ∧
        length (ts d') = length (price d') ∧
        ascending (ts d') = true.
Proof.
  split_and!; [reflexivity..|].
  apply (add_prices_append_only s_xyz X d_xyz [(1060, 7%Q); (1180, 8%Q)]);
    reflexivity.
Defined.

Lemma add_prices_out_of_range_raises_witness :
  data s_millis !! X = Some (Series [1700000000000] [1%Q]) ∧
  ¬ prunable 1700000000000 ∧
  (add_prices X [(1700000060000, 2%Q)] s_millis).1 = Raise DateRangeError.
Proof.
  assert (¬ prunable 1700000000000) as Hn.
  { unfold prunable. intros [_ H]. vm_compute in H. by apply H. }
  split_and!; [reflexivity|exact Hn|].
  apply (add_prices_out_of_range_raises s_millis X
           (Series [1700000000000] [1%Q]) 1700000000000);
    [reflexivity|reflexivity|reflexivity|exact Hn|discriminate].
Defined.

Lemma add_prices_strict_batch_witness :
  data s_xyz !! X = Some d_xyz ∧
  strictly_increasing [1060; 1120; 1180] = true ∧
  data (add_prices X [(1060, 7%Q); (1120, 8%Q); (1180, 9%Q)] s_xyz).2 !! X
  = Some (Series [1000; 1060; 1120; 1180] [100%Q; 101%Q; 8%Q; 9%Q]).
Proof.
  split_and!; [reflexivity..|].
  apply (add_prices_strict_batch s_xyz X d_xyz 1120
           [(1060, 7%Q); (1120, 8%Q); (1180, 9%Q)]);
    [reflexivity|reflexivity|reflexivity|reflexivity|discriminate|reflexivity].
Defined.

Lemma add_prices_twice_witness :
  strictly_increasing [1060; 1120; 1180] = true ∧
  add_prices X [(1060, 7%Q); (1120, 8%Q); (1180, 9%Q)]
    (add_prices X [(1060, 7%Q); (1120, 8%Q); (1180, 9%Q)] s_xyz).2
  = add_prices X [(1060, 7%Q); (1120, 8%Q); (1180, 9%Q)] s_xyz.
Proof.
  split; [reflexivity|].
  apply (add_prices_twice s_xyz X [(1060, 7%Q); (1120, 8%Q); (1180, 9%Q)]);
    [|reflexivity].
  intros d Hd. assert (d = d_xyz) as -> by (apply (inj Some); by rewrite <-Hd).
  split; reflexivity.
Defined.

Lemma get_last_price_after_add_prices_witness :
  strictly_increasing [1060; 1120; 1180] = true ∧
  last [(1060, 7%Q); (1120, 8%Q); (1180, 9%Q)] = Some (1180, 9%Q) ∧
  (get_last_price X
     (add_prices X [(1060, 7%Q); (1120, 8%Q); (1180, 9%Q)] s_xyz).2).1
  = Ok (Some (1180, 9%Q)).
Proof.
  split_and!; [reflexivity..|].
  apply (get_last_price_after_add_prices s_xyz X
           [(1060, 7%Q); (1120, 8%Q); (1180, 9%Q)] 1180 9%Q);
    [|reflexivity|reflexivity|].
  - intros d Hd. assert (d = d_xyz) as -> by (apply (inj Some); by rewrite <-Hd).
    split; reflexivity.
  - intros d l Hd Hl.
    assert (d = d_xyz) as -> by (apply (inj Some); by rewrite <-Hd).
    cbn in Hl. injection Hl as <-. lia.
Defined.

Lemma get_last_price_newest_witness :
  data s_xyz !! X = Some d_xyz ∧
  ∃ t p, get_last_price X s_xyz = (Ok (Some (t, p)), s_xyz) ∧
         ts d_xyz !! (length (ts d_xyz) - 1)%nat = Some t ∧
         price d_xyz !! (length (ts d_xyz) - 1)%nat = Some p ∧
         ∀ t', t' ∈ ts d_xyz → t' ≤ t.
Proof.
  split; [reflexivity|].
  apply (get_last_price_newest s_xyz X d_xyz);
    [reflexivity|discriminate|reflexivity|reflexivity].
Defined.

Lemma get_closest_price_exact_witness :
  data s_xyz !! X = Some d_xyz ∧
  strictly_increasing (ts d_xyz) = true ∧
  get_closest_price X 1060 s_xyz = (Ok (Some (1060, 101%Q)), s_xyz).
Proof.
  split_and!; [reflexivity..|].
  apply (get_closest_price_exact s_xyz X d_xyz 1 1060 101%Q); reflexivity.
Defined.

Lemma get_closest_price_clamps_witness :
  data s_xyz !! X = Some d_xyz ∧
  get_closest_price X 5 s_xyz = (Ok (Some (1000, 100%Q)), s_xyz) ∧
  get_closest_price X 2000 s_xyz = get_last_price X s_xyz.
Proof.
  assert (ts d_xyz ≠ []) as Hne by discriminate.
  destruct (get_closest_price_clamps s_xyz X d_xyz 5 eq_refl Hne eq_refl eq_refl)
    as [Hfirst _].
  destruct (get_closest_price_clamps s_xyz X d_xyz 2000 eq_refl Hne eq_refl eq_refl)
    as [_ Hlast].
  split_and!; [reflexivity| |].
  - apply (Hfirst 1000 100%Q); [reflexivity|reflexivity|lia].
  - apply (Hlast 1120); [reflexivity|lia].
Defined.

Lemma get_prices_sublist_witness :
  data s_xyz !! X = Some d_xyz ∧
  (get_prices X None 120 s_xyz).1 = Ok [(1000, 100%Q); (1120, 102%Q)] ∧
  ([(1000, 100%Q); (1120, 102%Q)]
     `sublist_of` (drop 0 (zip (ts d_xyz) (price d_xyz)))).
Proof.
  split_and!; [reflexivity..|].
  apply (get_prices_sublist s_xyz X d_xyz None 120); reflexivity.
Defined.

Lemma get_prices_keeps_spaced_witness :
  data s_xyz !! X = Some d_xyz ∧
  get_prices X None 60 s_xyz
  = (Ok (drop 0 (zip (ts d_xyz) (price d_xyz))), s_xyz).
Proof.
  split; [reflexivity|].
  apply (get_prices_keeps_spaced s_xyz X d_xyz None 60 0);
    [reflexivity|reflexivity| |reflexivity].
  intros [|[|[|j]]] t1 t2 H1 H2; cbn in H1, H2; try discriminate;
    injection H1 as <-; injection H2 as <-; lia.
Defined.

Lemma get_prices_window_witness :
  data s_xyz !! X = Some d_xyz ∧
  (get_prices X (Some 1) 60 s_xyz).1
    = Ok [(1000, 100%Q); (1060, 101%Q); (1120, 102%Q)] ∧
  ∀ t p, (t, p) ∈ [(1000, 100%Q); (1060, 101%Q); (1120, 102%Q)] →
         1120 - 1 * 86400 ≤ t ≤ 1120.
Proof.
  split_and!; [reflexivity..|].
  apply (get_prices_window s_xyz X d_xyz 1 60 1120);
    [reflexivity|reflexivity|reflexivity|discriminate|reflexivity|reflexivity].
Defined.

Lemma add_bulk_frame_witness :
  (Y ∉ [(X, [(1180, 9%Q)])].*1) ∧
  data (add_bulk [(X, [(1180, 9%Q)])] s_xyz).2 !! Y = data s_xyz !! Y ∧
  window_days (add_bulk [(X, [(1180, 9%Q)])] s_xyz).2 = window_days s_xyz.
Proof.
  assert (Y ∉ [(X, [(1180, 9%Q)])].*1) as Hy.
  { cbn. intros H. apply list_elem_of_singleton in H. discriminate. }
  split; [exact Hy|].
  apply (add_bulk_frame [(X, [(1180, 9%Q)])] s_xyz Y Hy).
Defined.

Lemma add_bulk_stops_at_raise_witness :
  let s1 := (add_prices X [(1000, 100%Q)] (init 30)).2 in
  let s2 := (add_prices Y [(1700000000000, 1%Q)] s1).2 in
  add_bulk [(X, [(1000, 100%Q)])] (init 30) = (Ok (), s1) ∧
  add_prices Y [(1700000000000, 1%Q)] s1 = (Raise DateRangeError, s2) ∧
  add_bulk ([(X, [(1000, 100%Q)])]
            ++ (Y, [(1700000000000, 1%Q)]) :: [(X, [(1060, 101%Q)])])
    (init 30)
  = (Raise DateRangeError, s2) ∧
  data s2 !! X = Some (Series [1000] [100%Q]).
Proof.
  intros s1 s2. split_and!; [reflexivity|reflexivity| |reflexivity].
  apply (add_bulk_stops_at_raise [(X, [(1000, 100%Q)])] [(X, [(1060, 101%Q)])]
           Y [(1700000000000, 1%Q)] (init 30) s1 s2 DateRangeError);
    reflexivity.
Defined.

Lemma add_bulk_reachable_witness :
  reachable (init 30 : PriceStore Q) ∧
  add_bulk [(X, [(1000, 100%Q); (1060, 101%Q)]); (Y, [(5000, 1%Q)])] (init 30)
    = (Ok (), (add_bulk [(X, [(1000, 100%Q); (1060, 101%Q)]); (Y, [(5000, 1%Q)])]
                 (init 30)).2) ∧
  reachable (add_bulk [(X, [(1000, 100%Q); (1060, 101%Q)]); (Y, [(5000, 1%Q)])]
               (init 30 : PriceStore Q)).2.
Proof.
  split_and!; [apply reachable_init|reflexivity|].
  apply (add_bulk_reachable
           [(X, [(1000, 100%Q); (1060, 101%Q)]); (Y, [(5000, 1%Q)])] (init 30));
    [apply reachable_init| |reflexivity].
  repeat constructor.
Defined.

Lemma count_mixture_app_witness :
  count_distribution_components (mixture [component norm_leaf (PInt 1)])
    = Returns 1 ∧
  count_distribution_components
    (mixture [component norm_leaf (PInt 1);
              component (mixture [component norm_leaf (PInt 1)]) (PInt 2)])
    = Returns 2 ∧
  count_distribution_components
    (mixture ([component norm_leaf (PInt 1)]
              ++ [component norm_leaf (PInt 1);
                  component (mixture [component norm_leaf (PInt 1)]) (PInt 2)]))
    = Returns (1 + 2).
Proof.
  split_and!; [reflexivity..|].
  apply count_mixture_app; reflexivity.
Defined.

Lemma validate_distribution_component_witness :
  let items : list (string * pyval Q) :=
    [("type"%string, PStr "mixture");
     ("components"%string,
       PList [component norm_leaf (PInt 1); component norm_leaf (PInt 1)])] in
  validate_distribution 2 (PDict items) = Returns () ∧
  validate_distribution 2 norm_leaf = Returns ().
Proof.
  intros items. split; [reflexivity|].
  apply (validate_distribution_component 2 items
           [component norm_leaf (PInt 1); component norm_leaf (PInt 1)]
           [("density"%string, norm_leaf); ("weight"%string, PInt 1)]);
    [reflexivity|reflexivity| |reflexivity].
  apply elem_of_cons. left. reflexivity.
Defined.

Lemma validate_distribution_spec_witness :
  count_distribution_components
    (mixture [component norm_leaf (PInt 1); component norm_leaf (PInt 1)])
    = Returns 2 ∧
  validate_distribution 1
    (mixture [component norm_leaf (PInt 1); component norm_leaf (PInt 1)])
    = Raises (ValueError 2).
Proof.
  split; [reflexivity|].
  destruct (validate_distribution_spec 1
              (mixture [component norm_leaf (PInt 1); component norm_leaf (PInt 1)])
              2 eq_refl) as (_ & _ & Hraise & _).
  apply Hraise. lia.
Defined.

Lemma count_distribution_components_leaves_witness :
  let t : dist_tree Q :=
    Mixture
      (FCons (Leaf [("type"%string, PStr "builtin")]) (PInt 1)
         (FCons (Mixture (FCons (Leaf []) (PInt 1)
                            (FCons (Leaf []) (PInt 1) FNil)))
            (PInt 2) FNil)) in
  well_formed t ∧ count_distribution_components (encode t) = Returns 3.
Proof.
  intros t. assert (well_formed t) as Hwf by (cbn; auto).
  split; [exact Hwf|]. exact (count_distribution_components_leaves t Hwf).
Defined.

Lemma predict_short_history_witness :
  data s_two !! X = Some d_two ∧
  (predict (λ _, 0%Q) (λ _, 1%Q) (λ q, Qle_bool q 0) X 86400 300 s_two).2
    = s_two ∧
  ((predict (λ _, 0%Q) (λ _, 1%Q) (λ q, Qle_bool q 0) X 86400 300 s_two).1
     = Predicted [] ∨
   ∃ e, (predict (λ _, 0%Q) (λ _, 1%Q) (λ q, Qle_bool q 0) X 86400 300 s_two).1
        = StoreRaised e).
Proof.
  split; [reflexivity|].
  apply (predict_short_history (λ _, 0%Q) (λ _, 1%Q) (λ q, Qle_bool q 0)
           X 86400 300 s_two).
  intros d Hd. assert (d = d_two) as -> by (apply (inj Some); by rewrite <-Hd).
  split; [reflexivity|cbn; lia].
Defined.

Lemma predict_forecasts_witness :
  (predict (λ _, 0%Q) (λ _, 1%Q) (λ q, Qle_bool q 0) X 180 60 s_xyz).1
    = Predicted (gaussian_step 0%Q 1%Q 60 <$> [1; 2; 3]) ∧
  length (gaussian_step 0%Q 1%Q 60 <$> [1; 2; 3]) = Z.to_nat (180 `div` 60).
Proof.
  split; [reflexivity|].
  assert (gaussian_step 0%Q 1%Q 60 <$> [1; 2; 3] ≠ []) as Hne by discriminate.
  destruct (predict_forecasts (λ _, 0%Q) (λ _, 1%Q) (λ q, Qle_bool q 0)
              X 180 60 s_xyz _ eq_refl Hne) as (_ & Hlen & _).
  exact Hlen.
Defined.
